(** * The queue worker of pi-mono: a shallow embedding and its properties

    The worker ([packages/worker/src/index.ts]) consumes tasks from a Redis
    stream under a consumer group, runs each one through a long-lived agent
    session, streams progress records and one result record to an output
    stream and acknowledges the stream message.  A subscriber on a pub/sub
    channel routes the control signals stop, steer and reset to the agent.

    Two older, list-based editions of the same program are also modelled:
    the edition that reads its queue names from the process environment and
    understands the bare literal STOP, and the edition that added the reset
    command.  Their task lifecycle is the same code with RPUSH in place of
    XADD and no acknowledgment.

    The program is effectful throughout, so it is embedded in a monad that
    carries the replies of the outside world, the process state, the list of
    effects performed and JavaScript exceptions.

    - Every call that leaves the process (Redis, the agent session) is an
      effect [Call c settled]; whether it returns or throws is decided by
      the world, which holds, for each kind of call, how its next
      invocations settle.  Theorems quantify over all worlds.
    - An [await] is the call itself: a rejection is an exception at the
      await.  The one call that is not awaited, the write of a progress
      record, carries its own catch.
    - The handler of control signals runs between the awaits of the loop.
      It shares with the loop the variable [currentTaskId], which it only
      reads, so a handler run and a loop iteration are each a computation
      on the same world.
    - JSON.parse is a parameter; JSON.stringify is not modelled: a write
      records the value that is stringified.
    - Log lines are recorded by call site, with the values they print.
      Where the text of a line is a template literal over a value that
      may be an object (the task id, the prompt, the steer message), the
      conversion to a string that the literal applies is modelled: it can
      throw, and then the line is not written and the statements after it
      do not run. *)

From Stdlib Require Import Ascii String List Bool Arith Lia PrimFloat.
Import ListNotations.
Open Scope string_scope.
Set Warnings "-register-all".

(** ** JavaScript values *)

(** Values that JSON.parse can produce, plus [undefined].  Objects keep
    their properties in source order, each key once. *)
Inductive JsValue : Type :=
| JUndefined
| JNull
| JBool (b : bool)
| JNum (n : float)
| JStr (s : string)
| JArr (items : list JsValue)
| JObj (props : list (string * JsValue)).

(** ToBoolean. *)
Definition truthy (v : JsValue) : bool :=
  match v with
  | JUndefined | JNull => false
  | JBool b => b
  | JNum n => PrimFloat.ltb n 0 || PrimFloat.ltb 0 n
  | JStr EmptyString => false
  | JStr _ => true
  | JArr _ | JObj _ => true
  end.

(** [a || b] *)
Definition js_or (a b : JsValue) : JsValue := if truthy a then a else b.

Definition has_key (k : string) (props : list (string * JsValue)) : bool :=
  existsb (fun kv => String.eqb (fst kv) k) props.

(** ToString(v) completes, as a template literal needs of each value it
    interpolates.  Primitives always convert.  An object converts through
    the inherited toString unless it has an own property of that name: no
    value from JSON.parse is callable, and the inherited valueOf returns the
    object itself, so the conversion then ends in a TypeError.  An array
    converts through join, which converts each element that is not null or
    undefined. *)
Fixpoint stringifiable (v : JsValue) : bool :=
  match v with
  | JArr items => forallb stringifiable items
  | JObj props => negb (has_key "toString" props)
  | _ => true
  end.

(** An Error object: its constructor name and its message.  What the
    platform, Redis and the agent session throw or reject with are Error
    objects, so [err.message] is a string. *)
Record Exn : Type := mkExn { name : string; message : string }.

Definition TypeError (msg : string) : Exn := mkExn "TypeError" msg.

Fixpoint lookup (k : string) (props : list (string * JsValue)) : JsValue :=
  match props with
  | [] => JUndefined
  | (k', v) :: rest => if String.eqb k k' then v else lookup k rest
  end.

(** Property read [v.k] for a key that no prototype defines (the program
    reads command, message, id, prompt and reset only): reading from null or
    undefined throws, primitives and arrays have no such property. *)
Definition get (v : JsValue) (k : string) : Exn + JsValue :=
  match v with
  | JUndefined => inl (TypeError "Cannot read properties of undefined")
  | JNull => inl (TypeError "Cannot read properties of null")
  | JObj props => inr (lookup k props)
  | _ => inr JUndefined
  end.

(** ** Agent session events *)

Record ContentBlock : Type := mkBlock { block_type : string; block_text : string }.

Record Message : Type := mkMessage { role : string; content : list ContentBlock }.

(** The event union of the agent session, by its [type] tag.  Tags the
    worker does not switch on are kept under [other_event]. *)
Inductive AgentEvent : Type :=
| message_start (msg : Message)
| message_end (msg : Message)
| tool_execution_start (toolName : string) (args : JsValue)
| tool_execution_end (toolName : string) (result : JsValue) (isError : bool)
| other_event (type : string).

(** ** The outside world *)

(** The three editions of the worker. *)
Inductive Edition : Type :=
| Stream      (* packages/worker/src/index.ts: consumer group, XADD, XACK *)
| ListLegacy  (* list edition with environment configuration and STOP *)
| ListReset.  (* list edition with the reset command *)

(** Calls that leave the process. *)
Inductive Command : Type :=
| agent_abort
| session_steer (msg : JsValue)
| session_newSession
| session_subscribe
| session_unsubscribe
| session_prompt (prompt : JsValue)
| redis_xreadgroup (group consumer key : string)
| redis_blpop (key : string)
| redis_xadd (key : string) (payload : JsValue)
| redis_rpush (key : string) (payload : JsValue)
| redis_xack (key group id : string).

Inductive Kind : Type :=
| KAbort | KSteer | KNewSession | KSubscribe | KUnsubscribe | KPrompt
| KXReadGroup | KBlpop | KXAdd | KRPush | KXAck.

Definition kind_of (c : Command) : Kind :=
  match c with
  | agent_abort => KAbort
  | session_steer _ => KSteer
  | session_newSession => KNewSession
  | session_subscribe => KSubscribe
  | session_unsubscribe => KUnsubscribe
  | session_prompt _ => KPrompt
  | redis_xreadgroup _ _ _ => KXReadGroup
  | redis_blpop _ => KBlpop
  | redis_xadd _ _ => KXAdd
  | redis_rpush _ _ => KRPush
  | redis_xack _ _ _ => KXAck
  end.

Definition Kind_eqb (a b : Kind) : bool :=
  match a, b with
  | KAbort, KAbort | KSteer, KSteer | KNewSession, KNewSession
  | KSubscribe, KSubscribe | KUnsubscribe, KUnsubscribe | KPrompt, KPrompt
  | KXReadGroup, KXReadGroup | KBlpop, KBlpop | KXAdd, KXAdd
  | KRPush, KRPush | KXAck, KXAck => true
  | _, _ => false
  end.

(** Lines written through [log] and [error] (or the console), one
    constructor per call site, carrying the values interpolated there. *)
Inductive LogLine : Type :=
| LInterrupt (current : JsValue)
| LPlainStop
| LSteer (current message : JsValue)
| LReset
| LControlParseFailed (rawSignal : string)
| LNoPayload (messageId : string)
| LReceived (messageId : option string) (rawMessage : string)
| LParseFailed (rawMessage : string)
| LResetting (id : JsValue)
| LMissingPrompt (payload : JsValue)
| LProcessing (id prompt : JsValue)
| LProgressFailed (err : Exn)
| LCompleted (id : JsValue)
| LAborted (id : JsValue)
| LTaskError (id : JsValue) (err : Exn)
| LLoopError (err : Exn).

Inductive Effect : Type :=
| Log (line : LogLine)
| LogError (line : LogLine)
| Call (c : Command) (settled : bool)   (* false: the call threw or rejected *)
| Sleep (ms : nat).

(** What XREADGROUP resolves to: null, or a list of streams, each with its
    name and its messages; a message is an id and a flat field list. *)
Definition XReadReply : Type := option (list (string * list (string * list string))).

(** What BLPOP resolves to: null or the pair of queue name and element. *)
Definition BlpopReply : Type := option (string * string).

(** The state a run threads: how the next calls of each kind settle
    ([None]: normally, [Some e]: with exception [e]; an exhausted list means
    normally), what the queue reads return, which events the session emits
    during each prompt, and the process variable [currentTaskId]. *)
Record World : Type := mkWorld {
  faults : Kind -> list (option Exn);
  stream_reads : list XReadReply;
  list_reads : list BlpopReply;
  emissions : list (list AgentEvent);
  currentTaskId : JsValue
}.

(** ** The monad: state, effect log and exceptions *)

Inductive Outcome (A : Type) : Type :=
| Returned (a : A)
| Thrown (e : Exn).
Arguments Returned {A} a.
Arguments Thrown {A} e.

Definition M (A : Type) : Type := World -> Outcome A * World * list Effect.

Definition ret {A} (a : A) : M A := fun w => (Returned a, w, []).

Definition throw {A} (e : Exn) : M A := fun w => (Thrown e, w, []).

Definition bind {A B} (m : M A) (k : A -> M B) : M B :=
  fun w =>
    match m w with
    | (Returned a, w1, t1) =>
        match k a w1 with
        | (r, w2, t2) => (r, w2, (t1 ++ t2)%list)
        end
    | (Thrown e, w1, t1) => (Thrown e, w1, t1)
    end.

Declare Scope js_scope.
Delimit Scope js_scope with js.
Notation "x <- m ;; k" := (bind m (fun x => k))
  (at level 100, m at next level, right associativity) : js_scope.
Notation "m ;; k" := (bind m (fun _ => k))
  (at level 100, right associativity) : js_scope.
Open Scope js_scope.

(** [try { body } catch (e) { handler e }] *)
Definition try_catch {A} (body : M A) (handler : Exn -> M A) : M A :=
  fun w =>
    match body w with
    | (Returned a, w1, t1) => (Returned a, w1, t1)
    | (Thrown e, w1, t1) =>
        match handler e w1 with
        | (r, w2, t2) => (r, w2, (t1 ++ t2)%list)
        end
    end.

(** [try { body } finally { fin }]: [fin] runs on both exits, and its own
    exception replaces the pending outcome. *)
Definition try_finally {A} (body : M A) (fin : M unit) : M A :=
  fun w =>
    match body w with
    | (r, w1, t1) =>
        match fin w1 with
        | (Returned _, w2, t2) => (r, w2, (t1 ++ t2)%list)
        | (Thrown e, w2, t2) => (Thrown e, w2, (t1 ++ t2)%list)
        end
    end.

(** [try { body } catch (e) { handler e } finally { fin }] *)
Definition try_catch_finally {A} (body : M A) (handler : Exn -> M A) (fin : M unit) : M A :=
  try_finally (try_catch body handler) fin.

Definition lift {A} (r : Exn + A) : M A :=
  match r with
  | inl e => throw e
  | inr a => ret a
  end.

Definition emit (e : Effect) : M unit := fun w => (Returned tt, w, [e]).

Definition log (line : LogLine) : M unit := emit (Log line).
Definition error (line : LogLine) : M unit := emit (LogError line).

(** [log] of a template literal that interpolates [values]: the text is
    built before [log] is called, and building it throws when one of the
    values does not convert to a string. *)
Definition log_template (values : list JsValue) (line : LogLine) : M unit :=
  if forallb stringifiable values then log line
  else throw (TypeError "Cannot convert object to primitive value").

Definition set_currentTaskId (v : JsValue) : M unit :=
  fun w => (Returned tt,
            mkWorld (faults w) (stream_reads w) (list_reads w) (emissions w) v, []).

Definition get_currentTaskId : M JsValue := fun w => (Returned (currentTaskId w), w, []).

Definition outcome {A} (x : Outcome A * World * list Effect) : Outcome A := fst (fst x).
Definition world {A} (x : Outcome A * World * list Effect) : World := snd (fst x).
Definition effects {A} (x : Outcome A * World * list Effect) : list Effect := snd x.

(** The world after the next call of kind [k] has consumed its outcome. *)
Definition consume (k : Kind) (w : World) : World :=
  mkWorld (fun k' => if Kind_eqb k' k then tl (faults w k') else faults w k')
          (stream_reads w) (list_reads w) (emissions w) (currentTaskId w).

Definition next_fault (k : Kind) (w : World) : option Exn := hd None (faults w k).

Definition settled (f : option Exn) : bool :=
  match f with
  | None => true
  | Some _ => false
  end.

(** Issue a call: it is recorded together with the way it will settle. *)
Definition invoke (c : Command) : M (option Exn) :=
  fun w => (Returned (next_fault (kind_of c) w), consume (kind_of c) w,
            [Call c (settled (next_fault (kind_of c) w))]).

(** The call settles: it returns (resolves) or throws (rejects into the
    awaiting caller). *)
Definition settle (f : option Exn) : M unit :=
  match f with
  | None => ret tt
  | Some e => throw e
  end.

(** A call whose result value the program does not use. *)
Definition call (c : Command) : M unit := f <- invoke c ;; settle f.

Definition next_stream_read : M XReadReply :=
  fun w => (Returned (hd None (stream_reads w)),
            mkWorld (faults w) (tl (stream_reads w)) (list_reads w) (emissions w)
                    (currentTaskId w), []).

Definition next_list_read : M BlpopReply :=
  fun w => (Returned (hd None (list_reads w)),
            mkWorld (faults w) (stream_reads w) (tl (list_reads w)) (emissions w)
                    (currentTaskId w), []).

Definition next_emission : M (list AgentEvent) :=
  fun w => (Returned (hd [] (emissions w)),
            mkWorld (faults w) (stream_reads w) (list_reads w) (tl (emissions w))
                    (currentTaskId w), []).

(** ** The worker *)

Section Worker.

(** JSON.parse, a function of the platform: the parsed value, or the
    SyntaxError it throws. *)
Variable JSON_parse : string -> Exn + JsValue.

(** process.env, read by the legacy edition only. *)
Variable process_env : string -> option string.

(** [process.env.K || fallback] *)
Definition env_or (k fallback : string) : string :=
  match process_env k with
  | Some (String c s) => String c s
  | _ => fallback
  end.

(** config.ts, also taken for the list edition with reset, which imports
    the same names; the legacy edition computes its names in [main]. *)
Definition inputQueue (ed : Edition) : string :=
  match ed with
  | ListLegacy => env_or "REDIS_INPUT_QUEUE" "agent_tasks"
  | _ => "agent_in"
  end.

Definition outputQueue (ed : Edition) : string :=
  match ed with
  | ListLegacy => env_or "REDIS_OUTPUT_QUEUE" "agent_results"
  | _ => "agent_out"
  end.

Definition consumerGroup : string := "agent-group".
Definition consumerName : string := "agent-0".

(** The write to a queue: XADD key * payload JSON.stringify(v) on the
    stream edition, RPUSH key JSON.stringify(v) on the list editions.  The
    effect keeps the value that is stringified. *)
Definition push_command (ed : Edition) (key : string) (v : JsValue) : Command :=
  match ed with
  | Stream => redis_xadd key v
  | _ => redis_rpush key v
  end.

Definition push (ed : Edition) (key : string) (v : JsValue) : M unit :=
  call (push_command ed key v).

Definition push_kind (ed : Edition) : Kind :=
  match ed with
  | Stream => KXAdd
  | _ => KRPush
  end.

Definition is_string (v : JsValue) (s : string) : bool :=
  match v with
  | JStr s' => String.eqb s' s
  | _ => false
  end.

Definition prop (v : JsValue) (k : string) : M JsValue := lift (get v k).

(** *** The control-signal handler *)

Definition greeting (ed : Edition) : string :=
  match ed with
  | Stream => "向用户发出你的问候"
  | _ => "发出你的问候。"
  end.

(** The task the reset branch enqueues. *)
Definition greeting_task (ed : Edition) (taskId : JsValue) : JsValue :=
  JObj [("id", taskId); ("source", JStr "internal"); ("prompt", JStr (greeting ed))].

(** redisSubscriber.on(message) of the legacy edition: stop and steer, and
    the bare literal STOP when the signal is not JSON. *)
Definition on_message_legacy (rawSignal : string) : M unit :=
  try_catch
    (signal <- lift (JSON_parse rawSignal) ;;
     command <- prop signal "command" ;;
     if is_string command "stop" then
       current <- get_currentTaskId ;;
       log_template [js_or current (JStr "none")]
         (LInterrupt (js_or current (JStr "none"))) ;;
       call agent_abort
     else
       message <- prop signal "message" ;;
       if is_string command "steer" && truthy message then
         current <- get_currentTaskId ;;
         log_template [js_or current (JStr "none"); message]
           (LSteer (js_or current (JStr "none")) message) ;;
         call (session_steer message)
       else ret tt)
    (fun _e =>
       if String.eqb rawSignal "STOP" then
         log LPlainStop ;;
         call agent_abort
       else ret tt).

(** The try block of redisSubscriber.on(message) in index.ts and in the
    list edition with reset.  [signal.message] is read ahead of the test
    that uses it: once [signal.command] has been read, reading another
    property of [signal] cannot throw. *)
Definition route_signal (ed : Edition) (rawSignal : string) : M unit :=
  signal <- lift (JSON_parse rawSignal) ;;
  command <- prop signal "command" ;;
  if is_string command "stop" then
    current <- get_currentTaskId ;;
    log_template [js_or current (JStr "none")]
         (LInterrupt (js_or current (JStr "none"))) ;;
    call agent_abort
  else
    message <- prop signal "message" ;;
    if is_string command "steer" && truthy message then
      current <- get_currentTaskId ;;
      log_template [js_or current (JStr "none"); message]
           (LSteer (js_or current (JStr "none")) message) ;;
      call (session_steer message)
    else if is_string command "reset" then
      log LReset ;;
      call session_newSession ;;
      taskId <- prop signal "id" ;;
      push ed (inputQueue ed) (greeting_task ed taskId)
    else ret tt.

(** The handler: the try block and its one catch, which logs. *)
Definition on_message_reset (ed : Edition) (rawSignal : string) : M unit :=
  try_catch (route_signal ed rawSignal)
            (fun _e => error (LControlParseFailed rawSignal)).

Definition on_message (ed : Edition) (rawSignal : string) : M unit :=
  match ed with
  | ListLegacy => on_message_legacy rawSignal
  | _ => on_message_reset ed rawSignal
  end.

(** *** The session listener *)

(** The first statement of the listener: text blocks of an assistant
    message_end are appended to [responseText]. *)
Definition collect (responseText : string) (event : AgentEvent) : string :=
  match event with
  | message_end msg =>
      if String.eqb (role msg) "assistant" then
        fold_left
          (fun text block =>
             if String.eqb (block_type block) "text" then text ++ block_text block
             else text)
          (content msg) responseText
      else responseText
  | _ => responseText
  end.

Definition progress_record (id : JsValue) (event : string) : JsValue :=
  JObj [("id", id); ("status", JStr "progress"); ("event", JStr event)].

Definition progress_record_data (id : JsValue) (event : string) (data : JsValue) : JsValue :=
  JObj [("id", id); ("status", JStr "progress"); ("event", JStr event); ("data", data)].

(** The switch on [event.type]: the progress record, or null. *)
Definition progress_of (id : JsValue) (event : AgentEvent) : option JsValue :=
  match event with
  | message_start msg =>
      if String.eqb (role msg) "assistant" then Some (progress_record id "llm_start")
      else None
  | message_end msg =>
      if String.eqb (role msg) "assistant" then Some (progress_record id "llm_end")
      else None
  | tool_execution_start toolName args =>
      Some (progress_record_data id "tool_start"
              (JObj [("tool", JStr toolName); ("args", args)]))
  | tool_execution_end toolName result isError =>
      Some (progress_record_data id "tool_end"
              (JObj [("tool", JStr toolName); ("result", result);
                     ("isError", JBool isError)]))
  | other_event _ => None
  end.

(** The listener passed to session.subscribe; [responseText] is the
    variable of the enclosing iteration that it updates.  The publish is
    not awaited: its rejection is logged by the attached catch. *)
Definition on_event (ed : Edition) (id : JsValue) (responseText : string)
    (event : AgentEvent) : M string :=
  let responseText := collect responseText event in
  match progress_of id event with
  | Some progress =>
      try_catch (push ed (outputQueue ed) progress)
                (fun err => error (LProgressFailed err)) ;;
      ret responseText
  | None => ret responseText
  end.

Fixpoint deliver (listener : string -> AgentEvent -> M string)
    (events : list AgentEvent) (responseText : string) : M string :=
  match events with
  | [] => ret responseText
  | event :: rest =>
      responseText' <- listener responseText event ;;
      deliver listener rest responseText'
  end.

(** [await session.prompt(prompt)] with [listener] subscribed: the session
    emits its events to the listener, then the call resolves or rejects. *)
Definition await_session_prompt (prompt : JsValue)
    (listener : string -> AgentEvent -> M string) (responseText : string) : M string :=
  f <- invoke (session_prompt prompt) ;;
  events <- next_emission ;;
  responseText' <- deliver listener events responseText ;;
  settle f ;;
  ret responseText'.

(** *** One task: the try / catch / finally of the consume loop *)

Definition resultPayload (id : JsValue) (responseText : string) : JsValue :=
  JObj [("id", id); ("response", JStr responseText); ("status", JStr "success")].

Definition errorPayload (id : JsValue) (err : Exn) : JsValue :=
  JObj [("id", id);
        ("error", JStr (if String.eqb (message err) "Aborted" then "Task aborted by user"
                        else message err));
        ("status", JStr "error")].

(** How the task is named in the lifecycle log lines of each edition. *)
Definition task_label (ed : Edition) (id : JsValue) : JsValue :=
  match ed with
  | Stream => id
  | ListLegacy => js_or id (JStr "unknown")
  | ListReset => js_or id (JStr "")
  end.

(** The last statement of the finally block: only the stream edition
    acknowledges. *)
Definition acknowledge (ed : Edition) (messageId : string) : M unit :=
  match ed with
  | Stream => call (redis_xack (inputQueue ed) consumerGroup messageId)
  | _ => ret tt
  end.

(** The lifecycle lines interpolate the task id only (on the list editions
    the id or a fixed text).  The loop enters the task after its
    Processing line has converted that same value, so the conversion
    completes here as well and these lines are plain [log] and [error]
    ([task_is_entered_with_a_printable_id] below). *)
Definition run_task (ed : Edition) (id prompt : JsValue) (messageId : string) : M unit :=
  try_catch_finally
    (responseText <- await_session_prompt prompt (on_event ed id) "" ;;
     log (LCompleted (task_label ed id)) ;;
     push ed (outputQueue ed) (resultPayload id responseText))
    (fun err =>
       (if String.eqb (message err) "Aborted" then log (LAborted (task_label ed id))
        else error (LTaskError (task_label ed id) err)) ;;
       push ed (outputQueue ed) (errorPayload id err))
    (call session_unsubscribe ;;
     set_currentTaskId JUndefined ;;
     acknowledge ed messageId).

(** *** The consume loop *)

(** The scan of the flat field list for the payload field: [Some EmptyString]
    is the initial value, [None] is the undefined read past the end. *)
Fixpoint find_payload (fields : list string) : option string :=
  match fields with
  | [] => Some EmptyString
  | key :: rest =>
      if String.eqb key "payload" then
        match rest with
        | [] => None
        | value :: _ => Some value
        end
      else
        match rest with
        | [] => Some EmptyString
        | _ :: rest' => find_payload rest'
        end
  end.

Definition await_xreadgroup : M XReadReply :=
  call (redis_xreadgroup consumerGroup consumerName (inputQueue Stream)) ;;
  next_stream_read.

Definition await_blpop (ed : Edition) : M BlpopReply :=
  call (redis_blpop (inputQueue ed)) ;;
  next_list_read.

(** The body of [while (true)] in index.ts. *)
Definition iteration_stream : M unit :=
  try_catch
    (result <- await_xreadgroup ;;
     match result with
     | None | Some [] => ret tt
     | Some ((_, messages) :: _) =>
         match messages with
         | [] => ret tt
         | (messageId, fields) :: _ =>
             match find_payload fields with
             | Some (String c s) =>
                 let rawMessage := String c s in
                 log (LReceived (Some messageId) rawMessage) ;;
                 match JSON_parse rawMessage with
                 | inl _e => error (LParseFailed rawMessage)
                 | inr payload =>
                     id <- prop payload "id" ;;
                     prompt <- prop payload "prompt" ;;
                     set_currentTaskId id ;;
                     if negb (truthy prompt) then
                       error (LMissingPrompt payload) ;;
                       set_currentTaskId JUndefined
                     else
                       log_template [js_or id (JStr ""); prompt]
                 (LProcessing (js_or id (JStr "")) prompt) ;;
                       call session_subscribe ;;
                       run_task Stream id prompt messageId
                 end
             | _ =>
                 log (LNoPayload messageId) ;;
                 call (redis_xack (inputQueue Stream) consumerGroup messageId)
             end
         end
     end)
    (fun err => error (LLoopError err) ;; emit (Sleep 5000)).

(** The body of [while (true)] in the list edition with reset. *)
Definition iteration_list_reset : M unit :=
  try_catch
    (result <- await_blpop ListReset ;;
     match result with
     | None => ret tt
     | Some (_, rawMessage) =>
         log (LReceived None rawMessage) ;;
         match JSON_parse rawMessage with
         | inl _e => error (LParseFailed rawMessage)
         | inr payload =>
             id <- prop payload "id" ;;
             prompt <- prop payload "prompt" ;;
             set_currentTaskId id ;;
             if negb (truthy prompt) then
               error (LMissingPrompt payload) ;;
               set_currentTaskId JUndefined
             else
               log_template [js_or id (JStr ""); prompt]
                 (LProcessing (js_or id (JStr "")) prompt) ;;
               call session_subscribe ;;
               run_task ListReset id prompt ""
         end
     end)
    (fun err => error (LLoopError err) ;; emit (Sleep 5000)).

(** The body of [while (true)] in the legacy edition, with the reset flag
    of the task. *)
Definition iteration_list_legacy : M unit :=
  try_catch
    (result <- await_blpop ListLegacy ;;
     match result with
     | None => ret tt
     | Some (_, rawMessage) =>
         log (LReceived None rawMessage) ;;
         match JSON_parse rawMessage with
         | inl _e => error (LParseFailed rawMessage)
         | inr payload =>
             id <- prop payload "id" ;;
             prompt <- prop payload "prompt" ;;
             reset <- prop payload "reset" ;;
             set_currentTaskId id ;;
             (if truthy reset then
                log_template [js_or id (JStr "unknown")]
                  (LResetting (js_or id (JStr "unknown"))) ;;
                call session_newSession
              else ret tt) ;;
             if negb (truthy prompt) then
               if truthy reset then set_currentTaskId JUndefined
               else
                 error (LMissingPrompt payload) ;;
                 set_currentTaskId JUndefined
             else
               log_template [js_or id (JStr "unknown"); prompt]
                 (LProcessing (js_or id (JStr "unknown")) prompt) ;;
               call session_subscribe ;;
               run_task ListLegacy id prompt ""
         end
     end)
    (fun err => error (LLoopError err) ;; emit (Sleep 5000)).

Definition iteration (ed : Edition) : M unit :=
  match ed with
  | Stream => iteration_stream
  | ListLegacy => iteration_list_legacy
  | ListReset => iteration_list_reset
  end.

(** [while (true)], cut after [n] iterations. *)
Fixpoint main_loop (ed : Edition) (n : nat) : M unit :=
  match n with
  | O => ret tt
  | S n' => iteration ed ;; main_loop ed n'
  end.

End Worker.

(** ** Observations on the effects of a run *)

Definition calls (t : list Effect) : list (Command * bool) :=
  flat_map (fun e => match e with Call c s => [(c, s)] | _ => [] end) t.

(** The records written to a queue, with the key and with whether the
    write settled normally. *)
Definition pushes (t : list Effect) : list (string * JsValue * bool) :=
  flat_map (fun e => match e with
                     | Call (redis_xadd key v) s | Call (redis_rpush key v) s => [(key, v, s)]
                     | _ => []
                     end) t.

(** A result record has status success or error; a progress record has
    status progress. *)
Definition is_result_record (v : JsValue) : bool :=
  match v with
  | JObj props =>
      match lookup "status" props with
      | JStr s => String.eqb s "success" || String.eqb s "error"
      | _ => false
      end
  | _ => false
  end.

Definition result_pushes (t : list Effect) : list (string * JsValue * bool) :=
  filter (fun p => is_result_record (snd (fst p))) (pushes t).

(** The results that reached the queue. *)
Definition published_results (t : list Effect) : list JsValue :=
  map (fun p => snd (fst p)) (filter (fun p => snd p) (result_pushes t)).

(** The message ids for which XACK was issued. *)
Definition acks (t : list Effect) : list string :=
  flat_map (fun e => match e with Call (redis_xack _ _ id) _ => [id] | _ => [] end) t.


Definition steer_calls (t : list Effect) : list JsValue :=
  flat_map (fun e => match e with Call (session_steer msg) _ => [msg] | _ => [] end) t.

(** The line the catch block of a task writes for the failure [err]. *)
Definition failure_line (ed : Edition) (id : JsValue) (err : Exn) : Effect :=
  if String.eqb (message err) "Aborted" then Log (LAborted (task_label ed id))
  else LogError (LTaskError (task_label ed id) err).

(** ** The response text, as the specification words it *)

(** The text blocks of one assistant message_end event, concatenated; the
    empty text for every other event. *)
Definition assistant_text (event : AgentEvent) : string :=
  match event with
  | message_end msg =>
      if String.eqb (role msg) "assistant" then
        String.concat EmptyString
          (map block_text
               (filter (fun block => String.eqb (block_type block) "text") (content msg)))
      else EmptyString
  | _ => EmptyString
  end.

Definition response_text (events : list AgentEvent) : string :=
  String.concat EmptyString (map assistant_text events).

(** ** Sample inputs *)

Definition dq : string := String (Ascii.ascii_of_nat 34) EmptyString.

(** The JSON text of an object whose keys and values are all strings. *)
Fixpoint json_members (props : list (string * string)) : string :=
  match props with
  | [] => EmptyString
  | [(k, v)] => dq ++ k ++ dq ++ ":" ++ dq ++ v ++ dq
  | (k, v) :: rest => dq ++ k ++ dq ++ ":" ++ dq ++ v ++ dq ++ "," ++ json_members rest
  end.

Definition json_text (props : list (string * string)) : string :=
  "{" ++ json_members props ++ "}".

Definition string_object (props : list (string * string)) : JsValue :=
  JObj (map (fun kv => (fst kv, JStr (snd kv))) props).

(** The objects whose JSON texts the examples send. *)
Definition sample_objects : list (list (string * string)) :=
  [ [("command", "stop")];
    [("command", "steer"); ("message", "go left")];
    [("command", "steer")];
    [("command", "reset")];
    [("command", "reset"); ("id", "r1")];
    [("id", "t1"); ("prompt", "hello")];
    [("id", "t2"); ("prompt", "run tool")] ].

(** JSON.parse on the texts of [sample_objects] and on the literal null;
    every other text the examples use (not-json, STOP, the empty text) is
    not JSON, and the table answers SyntaxError for whatever it does not
    list. *)
Definition JSON_parse_sample (text : string) : Exn + JsValue :=
  if String.eqb text "null" then inr JNull
  else
    match find (fun props => String.eqb text (json_text props)) sample_objects with
    | Some props => inr (string_object props)
    | None => inl (mkExn "SyntaxError" "Unexpected token")
    end.

Definition no_env (k : string) : option string := None.

Definition no_faults (k : Kind) : list (option Exn) := [].

(** A world in which every call settles normally and nothing is queued. *)
Definition quiet (current : JsValue) : World :=
  mkWorld no_faults [] [] [] current.

Definition faults_of (table : list (Kind * list (option Exn))) (k : Kind)
    : list (option Exn) :=
  match find (fun entry => Kind_eqb (fst entry) k) table with
  | Some entry => snd entry
  | None => []
  end.

Definition steer_text : string := json_text [("command", "steer"); ("message", "go left")].
Definition reset_text : string := json_text [("command", "reset")].
Definition reset_text_with_id : string := json_text [("command", "reset"); ("id", "r1")].
Definition task_text : string := json_text [("id", "t1"); ("prompt", "hello")].

(** One stream message 1-0 whose payload field holds [payload]. *)
Definition one_message (payload : string) : XReadReply :=
  Some [("agent_in", [("1-0", ["payload"; payload])])].

(** The task t1 is dequeued; the session answers with one assistant
    message whose text is hi. *)
Definition greeting_world : World :=
  mkWorld no_faults [one_message task_text] []
    [[message_start (mkMessage "assistant" []);
      message_end (mkMessage "assistant" [mkBlock "text" "hi"])]]
    JUndefined.

(** The task t1 is dequeued; the prompt fails and the connection of the
    publisher is down, so the write of the error record is rejected. *)
Definition failing_publish_world : World :=
  mkWorld (faults_of [(KPrompt, [Some (mkExn "Error" "boom")]);
                      (KXAdd, [Some (mkExn "Error" "Connection is closed.")])])
    [one_message task_text] [] [[]] JUndefined.

(** The prompt of the running task is aborted. *)
Definition aborted_world : World :=
  mkWorld (faults_of [(KPrompt, [Some (mkExn "Error" "Aborted")])]) [] [] [[]] (JStr "t1").

(** Another aborted prompt: an error of another name, after an event, with
    no task id in the slot. *)
Definition other_aborted_world : World :=
  mkWorld (faults_of [(KPrompt, [Some (mkExn "AbortError" "Aborted")])])
          [] [] [[other_event "agent_start"]] JUndefined.


(** A stream message 1-0 whose payload is not JSON. *)
Definition not_json_world : World :=
  mkWorld no_faults [one_message "not-json"] [] [] JUndefined.

(** The session refuses to start anew. *)
Definition stuck_session_world : World :=
  mkWorld (faults_of [(KNewSession, [Some (mkExn "Error" "busy")])]) [] [] [] JUndefined.

(** ** Start-up: the consumer group *)

(** [s.startsWith(sub)] *)
Fixpoint starts_with (s sub : string) : bool :=
  match sub, s with
  | EmptyString, _ => true
  | String _ _, EmptyString => false
  | String b sub', String a s' => Ascii.eqb a b && starts_with s' sub'
  end.

(** [s.includes(sub)]: [sub] occurs somewhere in [s]. *)
Fixpoint includes (s sub : string) : bool :=
  starts_with s sub
  || match s with
     | EmptyString => false
     | String _ s' => includes s' sub
     end.

(** The two lines the group creation can write. *)
Inductive StartupLine : Type :=
| LGroupCreated (group key : string)
| LGroupFailed (message : string).

Inductive StartupEffect : Type :=
| StartupLog (line : StartupLine)
| StartupError (line : StartupLine).

(** The try / catch around XGROUP CREATE key group $ MKSTREAM in [main] of
    index.ts, as a function of how the awaited call settles: what it
    writes.  The catch has no rethrow, so [main] goes on in every case. *)
Definition ensure_group (process_env : string -> option string) (reply : option Exn)
    : list StartupEffect :=
  match reply with
  | None => [StartupLog (LGroupCreated consumerGroup (inputQueue process_env Stream))]
  | Some err =>
      if negb (includes (message err) "BUSYGROUP")
      then [StartupError (LGroupFailed (message err))]
      else []
  end.

(** ** logger.ts *)

Fixpoint drop (n : nat) (s : string) : string :=
  match n, s with
  | O, _ => s
  | S _, EmptyString => EmptyString
  | S n', String _ s' => drop n' s'
  end.

(** [s.replace(pattern, replacement)] for a string pattern and a
    replacement without dollar patterns: the first occurrence is
    replaced. *)
Fixpoint replace (s pattern replacement : string) : string :=
  if starts_with s pattern then replacement ++ drop (String.length pattern) s
  else
    match s with
    | EmptyString => EmptyString
    | String a s' => String a (replace s' pattern replacement)
    end.

(** The timestamp of [log] and [error], from [now.toISOString()]. *)
Definition timestamp (iso : string) : string :=
  replace (replace iso "T" " ") "Z" EmptyString.

(** The first argument [log] and [error] pass to the console. *)
Definition log_text (iso message : string) : string :=
  "[" ++ timestamp iso ++ "] " ++ message.

(** ** Further observations *)

(** The progress records of a list of events, in order. *)
Definition progress_records (id : JsValue) (events : list AgentEvent) : list JsValue :=
  flat_map (fun event => match progress_of id event with
                         | Some progress => [progress]
                         | None => []
                         end) events.

(** The calls of kind [k], with the way each settled. *)
Definition calls_of (k : Kind) (t : list Effect) : list (Command * bool) :=
  filter (fun cs => Kind_eqb (kind_of (fst cs)) k) (calls t).

(** The queue reads of either flavour. *)
Definition reads (t : list Effect) : nat :=
  length (calls_of KXReadGroup t) + length (calls_of KBlpop t).

(** The blocking read at the head of each iteration. *)
Definition read_command (process_env : string -> option string) (ed : Edition) : Command :=
  match ed with
  | Stream => redis_xreadgroup consumerGroup consumerName (inputQueue process_env Stream)
  | _ => redis_blpop (inputQueue process_env ed)
  end.

(** The effects of the listener: writes of its edition and the error lines
    of rejected writes. *)
Definition is_progress_effect (ed : Edition) (e : Effect) : bool :=
  match e with
  | Call c _ => Kind_eqb (kind_of c) (push_kind ed)
  | LogError (LProgressFailed _) => true
  | _ => false
  end.

(** The world in which the listener receives the events of a prompt: the
    prompt call and its emission have been taken. *)
Definition after_prompt (w : World) : World :=
  mkWorld (faults (consume KPrompt w)) (stream_reads w) (list_reads w)
          (tl (emissions w)) (currentTaskId w).

(** ** More sample inputs *)

Definition no_prompt_text : string := json_text [("id", "t3")].
Definition pause_text : string := json_text [("command", "pause")].

(** The text of a task whose id is an object with an own toString. *)
Definition unprintable_task_text : string :=
  "{" ++ dq ++ "id" ++ dq ++ ":{" ++ dq ++ "toString" ++ dq ++ ":1},"
      ++ dq ++ "prompt" ++ dq ++ ":" ++ dq ++ "hi" ++ dq ++ "}".

(** The text of a legacy task that only resets. *)
Definition reset_only_text : string :=
  "{" ++ dq ++ "reset" ++ dq ++ ":true}".

Definition more_texts : list (string * JsValue) :=
  [ (no_prompt_text, string_object [("id", "t3")]);
    (pause_text, string_object [("command", "pause")]);
    (unprintable_task_text,
     JObj [("id", JObj [("toString", JNum 1%float)]); ("prompt", JStr "hi")]);
    (reset_only_text, JObj [("reset", JBool true)]) ].

(** JSON.parse on the texts of [more_texts] as well. *)
Definition JSON_parse_more (text : string) : Exn + JsValue :=
  match find (fun entry => String.eqb text (fst entry)) more_texts with
  | Some entry => inr (snd entry)
  | None => JSON_parse_sample text
  end.

(** The stream read is rejected. *)
Definition broken_read_world : World :=
  mkWorld (faults_of [(KXReadGroup, [Some (mkExn "Error" "read ECONNRESET")])])
          [] [] [] JUndefined.

(** Task t1 is dequeued and session.subscribe throws. *)
Definition broken_subscribe_world : World :=
  mkWorld (faults_of [(KSubscribe, [Some (mkExn "Error" "session closed")])])
          [one_message task_text] [] [] JUndefined.

(** * Properties *)

(** ** Strings and effect lists *)

Lemma append_empty_r (s : string) : s ++ EmptyString = s.
Proof. induction s as [|c s IH]; simpl; [reflexivity | now rewrite IH]. Qed.

Lemma append_assoc (a b c : string) : (a ++ b) ++ c = a ++ (b ++ c).
Proof. induction a as [|x a IH]; simpl; [reflexivity | now rewrite IH]. Qed.

Lemma concat_cons (x : string) (xs : list string) :
  String.concat EmptyString (x :: xs) = x ++ String.concat EmptyString xs.
Proof.
  destruct xs as [|y ys]; simpl; [now rewrite append_empty_r | reflexivity].
Qed.

Lemma pushes_app (t1 t2 : list Effect) :
  pushes (t1 ++ t2)%list = (pushes t1 ++ pushes t2)%list.
Proof. apply flat_map_app. Qed.

Lemma result_pushes_app (t1 t2 : list Effect) :
  result_pushes (t1 ++ t2)%list = (result_pushes t1 ++ result_pushes t2)%list.
Proof. unfold result_pushes. now rewrite pushes_app, filter_app. Qed.

Lemma acks_app (t1 t2 : list Effect) : acks (t1 ++ t2)%list = (acks t1 ++ acks t2)%list.
Proof. apply flat_map_app. Qed.

Lemma Kind_eqb_eq (a b : Kind) : Kind_eqb a b = true <-> a = b.
Proof. destruct a, b; cbn; split; congruence. Qed.

Lemma faults_consume_other (k k' : Kind) (w : World) :
  k' <> k -> faults (consume k w) k' = faults w k'.
Proof.
  intros H. cbn. destruct (Kind_eqb k' k) eqn:E; [|reflexivity].
  apply Kind_eqb_eq in E. contradiction.
Qed.

(** ** The listener *)

(** The loop over the content blocks appends exactly the text blocks, in
    order. *)
Lemma collect_blocks (blocks : list ContentBlock) (text : string) :
  fold_left
    (fun text block =>
       if String.eqb (block_type block) "text" then text ++ block_text block else text)
    blocks text
  = text ++ String.concat EmptyString
              (map block_text
                   (filter (fun block => String.eqb (block_type block) "text") blocks)).
Proof.
  revert text. induction blocks as [|b blocks IH]; intros text.
  - simpl. now rewrite append_empty_r.
  - cbn [fold_left filter]. rewrite IH.
    destruct (String.eqb (block_type b) "text").
    + cbn [map]. now rewrite concat_cons, append_assoc.
    + reflexivity.
Qed.

Lemma collect_spec (text : string) (event : AgentEvent) :
  collect text event = text ++ assistant_text event.
Proof.
  destruct event; cbn [collect assistant_text]; try now rewrite append_empty_r.
  destruct (String.eqb (role msg) "assistant").
  - apply collect_blocks.
  - now rewrite append_empty_r.
Qed.

Lemma progress_is_no_result (id : JsValue) (event : AgentEvent) (progress : JsValue) :
  progress_of id event = Some progress -> is_result_record progress = false.
Proof.
  destruct event; cbn; try destruct (String.eqb (role msg) "assistant");
    intros H; inversion H; reflexivity.
Qed.

(** ** The payload field *)

Lemma pairs_ind (P : list string -> Prop) :
  P [] ->
  (forall key, P [key]) ->
  (forall key value rest, P rest -> P (key :: value :: rest)) ->
  forall fields, P fields.
Proof.
  intros H0 H1 H2 fields.
  assert (H : P fields /\ forall key, P (key :: fields)).
  { induction fields as [|x fields [IH1 IH2]].
    - split; [exact H0 | exact H1].
    - split; [apply IH2 | intros key; apply H2, IH1]. }
  exact (proj1 H).
Qed.

Lemma nth_error_pair_step (key value : string) (rest : list string) (i : nat) :
  nth_error (key :: value :: rest) (2 * S i) = nth_error rest (2 * i)
  /\ nth_error (key :: value :: rest) (2 * S i + 1) = nth_error rest (2 * i + 1).
Proof.
  replace (2 * S i) with (S (S (2 * i))) by lia. split; reflexivity.
Qed.


(** The scan stops at the first payload key at an even position and takes
    the element after it. *)
Lemma find_payload_first (i : nat) :
  forall (fields : list string) (raw : string),
  nth_error fields (2 * i) = Some "payload" ->
  (forall j, j < i -> nth_error fields (2 * j) <> Some "payload") ->
  nth_error fields (2 * i + 1) = Some raw ->
  find_payload fields = Some raw.
Proof.
  induction i as [|i IH]; intros fields raw Hk Hfirst Hv.
  - destruct fields as [|key [|value rest]]; cbn in Hk, Hv; try discriminate.
    inversion Hk; subst key. inversion Hv; subst value. reflexivity.
  - destruct fields as [|key [|value rest]].
    + discriminate Hk.
    + replace (2 * S i) with (S (S (2 * i))) in Hk by lia. discriminate Hk.
    + destruct (nth_error_pair_step key value rest i) as [E1 E2].
      rewrite E1 in Hk. rewrite E2 in Hv.
      cbn [find_payload]. destruct (String.eqb_spec key "payload") as [E|E].
      * exfalso. apply (Hfirst 0); [lia|]. cbn. now rewrite E.
      * apply (IH rest raw Hk); [|exact Hv].
        intros j Hj Hn. apply (Hfirst (S j)); [lia|].
        now rewrite (proj1 (nth_error_pair_step key value rest j)).
Qed.

Section Properties.

Variable JSON_parse : string -> Exn + JsValue.
Variable process_env : string -> option string.

(** One event through the listener: the text is collected, and a mapped
    event costs one write whose failure is logged and goes no further. *)
Lemma on_event_run (ed : Edition) (id : JsValue) (text : string) (event : AgentEvent)
    (w : World) :
  on_event process_env ed id text event w =
    match progress_of id event with
    | None => (Returned (collect text event), w, [])
    | Some progress =>
        (Returned (collect text event), consume (push_kind ed) w,
         Call (push_command ed (outputQueue process_env ed) progress)
              (settled (next_fault (push_kind ed) w))
           :: match next_fault (push_kind ed) w with
              | None => []
              | Some err => [LogError (LProgressFailed err)]
              end)
    end.
Proof.
  unfold on_event. destruct (progress_of id event) as [progress|]; [|reflexivity].
  destruct ed; cbn; unfold try_catch, push, call, bind, invoke; cbn;
    destruct (next_fault _ w); reflexivity.
Qed.

(** All events of one prompt through the listener: the listener never
    throws, the text grows by [response_text], no result record is written
    and nothing is acknowledged; only write outcomes are consumed. *)
Lemma deliver_on_event (ed : Edition) (id : JsValue) (events : list AgentEvent) :
  forall (text : string) (w : World),
  exists (w' : World) (t : list Effect),
    deliver (on_event process_env ed id) events text w
      = (Returned (text ++ response_text events), w', t)
    /\ result_pushes t = []
    /\ acks t = []
    /\ (forall k, k <> push_kind ed -> faults w' k = faults w k)
    /\ stream_reads w' = stream_reads w
    /\ list_reads w' = list_reads w
    /\ emissions w' = emissions w
    /\ currentTaskId w' = currentTaskId w.
Proof.
  induction events as [|event events IH]; intros text w.
  - exists w, []. cbn. rewrite append_empty_r. repeat split; reflexivity.
  - cbn [deliver]. unfold bind. rewrite on_event_run.
    unfold response_text. cbn [map]. rewrite concat_cons, <- append_assoc, <- collect_spec.
    fold (response_text events).
    destruct (progress_of id event) as [progress|] eqn:Hp.
    + destruct (IH (collect text event) (consume (push_kind ed) w))
        as (w' & t & Hd & Hr & Ha & Hf & Hs & Hl & He & Hc).
      rewrite Hd. eexists _, _. split; [reflexivity|].
      cbn [consume stream_reads list_reads emissions currentTaskId] in Hs, Hl, He, Hc.
      repeat split; try assumption.
      * rewrite result_pushes_app, Hr, app_nil_r.
        unfold result_pushes.
        destruct ed, (next_fault _ w); cbn;
          now rewrite (progress_is_no_result _ _ _ Hp).
      * rewrite acks_app, Ha, app_nil_r.
        destruct ed, (next_fault _ w); reflexivity.
      * intros k Hk. rewrite (Hf k Hk). now apply faults_consume_other.
    + destruct (IH (collect text event) w) as (w' & t & Hd & Hrest).
      rewrite Hd. exists w', t. split; [reflexivity | exact Hrest].
Qed.

(** ** One task *)

(** The effects of one task on every exit path: the prompt call, the
    progress writes [t1], then either the success record (and, when that
    write is rejected, the error record the catch block writes for the
    rejection) or the error record for the failed prompt, then the finally
    block. *)
Lemma run_task_effects (ed : Edition) (id prompt : JsValue) (messageId : string) (w : World) :
  exists (t1 : list Effect) (p1 p2 : option Exn),
    result_pushes t1 = [] /\ acks t1 = [] /\
    effects (run_task process_env ed id prompt messageId w) =
      ((Call (session_prompt prompt) (settled (next_fault KPrompt w)) :: t1)
       ++ match next_fault KPrompt w with
          | None =>
              Log (LCompleted (task_label ed id))
              :: Call (push_command ed (outputQueue process_env ed)
                         (resultPayload id (response_text (hd [] (emissions w)))))
                      (settled p1)
              :: match p1 with
                 | None => []
                 | Some e =>
                     [failure_line ed id e;
                      Call (push_command ed (outputQueue process_env ed) (errorPayload id e))
                           (settled p2)]
                 end
          | Some err =>
              [failure_line ed id err;
               Call (push_command ed (outputQueue process_env ed) (errorPayload id err))
                    (settled p1)]
          end
       ++ Call session_unsubscribe (settled (next_fault KUnsubscribe w))
          :: match next_fault KUnsubscribe w, ed with
             | None, Stream =>
                 [Call (redis_xack (inputQueue process_env Stream) consumerGroup messageId)
                       (settled (next_fault KXAck w))]
             | _, _ => []
             end)%list.
Proof.
  unfold run_task, try_catch_finally, try_finally, try_catch, await_session_prompt.
  unfold bind at 1 2 3 4 5. cbn [invoke next_emission].
  match goal with
  | |- context [deliver ?l ?evs ?text ?w0] =>
      destruct (deliver_on_event ed id evs text w0)
        as (w1 & t1 & Hd & Hr & Ha & Hf & _ & _ & _ & _); rewrite Hd
  end.
  assert (HU : faults w1 KUnsubscribe = faults w KUnsubscribe).
  { rewrite Hf by (destruct ed; discriminate). reflexivity. }
  assert (HA : faults w1 KXAck = faults w KXAck).
  { rewrite Hf by (destruct ed; discriminate). reflexivity. }
  exists t1, (next_fault (push_kind ed) w1),
         (next_fault (push_kind ed) (consume (push_kind ed) w1)).
  split; [exact Hr|]. split; [exact Ha|].
  cbn [consume emissions kind_of hd].
  clear Hd Hf Hr Ha.
  unfold failure_line, push, call, acknowledge, log, error, emit, set_currentTaskId,
    settle, invoke, bind, ret, throw, next_fault, effects.
  destruct (hd None (faults w KPrompt)) as [err|] eqn:EP;
    destruct (hd None (faults w KUnsubscribe)) as [eu|] eqn:EU;
    destruct (hd None (faults w KXAck)) as [ea|] eqn:EA;
    destruct (hd None (faults w1 (push_kind ed))) as [e1|] eqn:E1;
    destruct (hd None (tl (faults w1 (push_kind ed)))) as [e2|] eqn:E2;
    destruct ed; cbn [push_kind] in E1, E2;
    repeat first
      [ progress cbn
      | progress unfold call, invoke, settle, bind, ret, throw, next_fault
      | progress rewrite ?HU, ?HA, ?EP, ?EU, ?EA, ?E1, ?E2
      | match goal with
        | |- context [String.eqb (message ?e) ?s] => destruct (String.eqb (message e) s)
        end ];
    rewrite <- ?app_assoc, ?app_nil_r; reflexivity.
Qed.

Lemma result_pushes_failure (ed : Edition) (id : JsValue) (err : Exn) (key : string)
    (p : option Exn) :
  result_pushes [failure_line ed id err;
                 Call (push_command ed key (errorPayload id err)) (settled p)]
  = [(key, errorPayload id err, settled p)].
Proof.
  unfold failure_line. destruct (String.eqb (message err) "Aborted"), ed; reflexivity.
Qed.

Lemma acks_failure (ed : Edition) (id : JsValue) (err : Exn) (key : string) (p : option Exn) :
  acks [failure_line ed id err;
        Call (push_command ed key (errorPayload id err)) (settled p)] = [].
Proof.
  unfold failure_line. destruct (String.eqb (message err) "Aborted"), ed; reflexivity.
Qed.

Lemma result_pushes_log (line : LogLine) (t : list Effect) :
  result_pushes (Log line :: t) = result_pushes t.
Proof. reflexivity. Qed.

Lemma result_pushes_push (ed : Edition) (key : string) (v : JsValue) (s : bool)
    (t : list Effect) :
  is_result_record v = true ->
  result_pushes (Call (push_command ed key v) s :: t) = (key, v, s) :: result_pushes t.
Proof.
  intros H. unfold result_pushes. destruct ed; cbn; now rewrite H.
Qed.

Lemma result_pushes_cleanup (ed : Edition) (key group messageId : string) (u a : option Exn) :
  result_pushes
    (Call session_unsubscribe (settled u)
       :: match u, ed with
          | None, Stream => [Call (redis_xack key group messageId) (settled a)]
          | _, _ => []
          end) = [].
Proof. destruct u, ed; reflexivity. Qed.

(** A task whose prompt fails writes exactly one result record, the error
    record of the failure. *)
Lemma run_task_failed (ed : Edition) (id prompt : JsValue) (messageId : string) (w : World)
    (err : Exn) :
  next_fault KPrompt w = Some err ->
  exists p : option Exn,
    result_pushes (effects (run_task process_env ed id prompt messageId w))
    = [(outputQueue process_env ed, errorPayload id err, settled p)].
Proof.
  intros Hf.
  destruct (run_task_effects ed id prompt messageId w) as (t1 & p1 & p2 & Hr & _ & He).
  rewrite He, Hf. exists p1.
  rewrite !result_pushes_app, result_pushes_failure, result_pushes_cleanup.
  change (Call (session_prompt prompt) (settled (Some err)) :: t1)
    with ([Call (session_prompt prompt) false] ++ t1)%list.
  rewrite result_pushes_app, Hr. reflexivity.
Qed.

(** A task whose prompt resolves writes the success record first; only when
    that write is rejected does the catch block write an error record. *)
Lemma run_task_resolved (ed : Edition) (id prompt : JsValue) (messageId : string) (w : World) :
  next_fault KPrompt w = None ->
  exists p1 p2 : option Exn,
    result_pushes (effects (run_task process_env ed id prompt messageId w))
    = (outputQueue process_env ed,
       resultPayload id (response_text (hd [] (emissions w))), settled p1)
      :: match p1 with
         | None => []
         | Some e => [(outputQueue process_env ed, errorPayload id e, settled p2)]
         end.
Proof.
  intros Hf.
  destruct (run_task_effects ed id prompt messageId w) as (t1 & p1 & p2 & Hr & _ & He).
  rewrite He, Hf. exists p1, p2.
  rewrite !result_pushes_app, result_pushes_cleanup, app_nil_r.
  change (Call (session_prompt prompt) (settled None) :: t1)
    with ([Call (session_prompt prompt) true] ++ t1)%list.
  rewrite result_pushes_app, Hr. cbn [app].
  rewrite result_pushes_log, result_pushes_push by reflexivity.
  destruct p1 as [e|]; [|reflexivity].
  now rewrite result_pushes_failure.
Qed.

(** C1, as amended.  In reliable delivery mode, for every task that reaches
    execution and whose unsubscription returns, the acknowledgment of the
    stream message id is the last effect of every exit path (success,
    error, abort, rejected publish): it is issued exactly once, after the
    unsubscription and after every attempt to publish a result record, of
    which there is at least one.  Whether such an attempt succeeded plays no
    part. *)
Theorem ack_is_last_on_every_exit_path (id prompt : JsValue) (messageId : string)
    (w : World) :
  next_fault KUnsubscribe w = None ->
  exists (before : list Effect) (s : bool),
    effects (run_task process_env Stream id prompt messageId w)
      = (before
         ++ [Call session_unsubscribe true;
             Call (redis_xack (inputQueue process_env Stream) consumerGroup messageId) s])%list
    /\ acks before = []
    /\ result_pushes before <> []
    /\ acks (effects (run_task process_env Stream id prompt messageId w)) = [messageId].
Proof.
  intros Hu.
  destruct (run_task_effects Stream id prompt messageId w) as (t1 & p1 & p2 & Hr & Ha & He).
  rewrite He, Hu. clear He.
  set (middle := match next_fault KPrompt w with
                 | None => _
                 | Some err => _
                 end).
  exists ((Call (session_prompt prompt) (settled (next_fault KPrompt w)) :: t1) ++ middle)%list,
         (settled (next_fault KXAck w)).
  assert (Hm : acks middle = []).
  { subst middle. destruct (next_fault KPrompt w) as [err|].
    - apply acks_failure.
    - destruct p1 as [e|]; [|reflexivity].
      change (acks [failure_line Stream id e;
                    Call (push_command Stream (outputQueue process_env Stream)
                            (errorPayload id e)) (settled p2)] = []).
      apply acks_failure. }
  assert (Hb : acks ((Call (session_prompt prompt) (settled (next_fault KPrompt w)) :: t1)
                     ++ middle)%list = []).
  { rewrite acks_app, Hm, app_nil_r. exact Ha. }
  repeat split.
  - now rewrite app_assoc.
  - exact Hb.
  - rewrite result_pushes_app. subst middle.
    intros H. apply app_eq_nil in H. destruct H as [_ H].
    destruct (next_fault KPrompt w) as [err|].
    + rewrite result_pushes_failure in H. discriminate H.
    + rewrite result_pushes_log, result_pushes_push in H by reflexivity. discriminate H.
  - rewrite app_assoc, acks_app, Hb. reflexivity.
Qed.

(** C4.  In index.ts, a task whose agent invocation fails publishes one
    result record, an error record: when the message of the failure is the
    abort signature, its error text is the fixed Task aborted by user and
    not the text of the failure; for every other failure it is the message
    of the failure as it came. *)
Theorem failed_task_publishes_error_record (id prompt : JsValue) (messageId : string)
    (w : World) (err : Exn) :
  next_fault KPrompt w = Some err ->
  exists (text : string) (s : bool),
    result_pushes (effects (run_task process_env Stream id prompt messageId w))
      = [(outputQueue process_env Stream,
          JObj [("id", id); ("error", JStr text); ("status", JStr "error")], s)]
    /\ (message err = "Aborted" -> text = "Task aborted by user" /\ text <> message err)
    /\ (message err <> "Aborted" -> text = message err).
Proof.
  intros Hf.
  destruct (run_task_failed Stream id prompt messageId w err Hf) as (p & Hp).
  exists (if String.eqb (message err) "Aborted" then "Task aborted by user" else message err),
         (settled p).
  split; [exact Hp|].
  destruct (String.eqb_spec (message err) "Aborted") as [E|E]; split; intros H.
  - split; [reflexivity|]. rewrite E. discriminate.
  - contradiction.
  - contradiction.
  - reflexivity.
Qed.

(** C5.  A task whose prompt resolves writes the success record first, and
    its response is the concatenation, in emission order, of the text
    blocks of the assistant message_end events emitted during the prompt;
    no other event and no other block contributes.  If that write settles,
    it is the only result record; if it is rejected, what follows is the
    error record for the rejection. *)
Theorem success_response_is_assistant_text (ed : Edition) (id prompt : JsValue)
    (messageId : string) (w : World) (events : list AgentEvent) :
  next_fault KPrompt w = None ->
  hd [] (emissions w) = events ->
  exists (s : bool) (rest : list (string * JsValue * bool)),
    result_pushes (effects (run_task process_env ed id prompt messageId w))
      = (outputQueue process_env ed,
         JObj [("id", id); ("response", JStr (response_text events));
               ("status", JStr "success")], s) :: rest
    /\ (s = true -> rest = [])
    /\ Forall (fun r => exists e s',
                  r = (outputQueue process_env ed, errorPayload id e, s')) rest.
Proof.
  intros Hf He.
  destruct (run_task_resolved ed id prompt messageId w Hf) as (p1 & p2 & Hp).
  rewrite He in Hp. rewrite Hp.
  eexists _, _. split; [reflexivity|].
  destruct p1 as [e|]; split.
  - discriminate.
  - constructor; [|constructor]. now exists e, (settled p2).
  - reflexivity.
  - constructor.
Qed.

(** C10.  In every edition the result record of a failed agent invocation is
    a function of the task id and of the message of the failure alone: its
    error text is Task aborted by user when the message equals Aborted and
    the message itself otherwise.  No control signal takes part: two runs
    whose failures carry the same message write the same record. *)
Theorem abort_classification_is_by_message (ed : Edition) (id prompt prompt' : JsValue)
    (messageId messageId' : string) (w w' : World) (err err' : Exn) :
  next_fault KPrompt w = Some err ->
  next_fault KPrompt w' = Some err' ->
  message err = message err' ->
  map (fun p => snd (fst p))
      (result_pushes (effects (run_task process_env ed id prompt messageId w)))
    = [JObj [("id", id);
             ("error", JStr (if String.eqb (message err) "Aborted"
                             then "Task aborted by user" else message err));
             ("status", JStr "error")]]
  /\ map (fun p => snd (fst p))
         (result_pushes (effects (run_task process_env ed id prompt' messageId' w')))
     = map (fun p => snd (fst p))
           (result_pushes (effects (run_task process_env ed id prompt messageId w))).
Proof.
  intros Hf Hf' Hm.
  destruct (run_task_failed ed id prompt messageId w err Hf) as (p & Hp).
  destruct (run_task_failed ed id prompt' messageId' w' err' Hf') as (p' & Hp').
  rewrite Hp, Hp'. unfold errorPayload. rewrite Hm. split; reflexivity.
Qed.

(** ** The progress mapping *)

(** C6.  What the listener writes for each event: one llm_start record for
    an assistant message_start, one llm_end record for an assistant
    message_end, nothing for a message event of another role; one
    tool_start record with the tool name and the arguments for a
    tool_execution_start, one tool_end record with the tool name, the result
    and isError for a tool_execution_end; nothing for any other event. *)
Theorem progress_mapping_is_exact (ed : Edition) (id : JsValue) (text : string) (w : World)
    (msg : Message) (toolName : string) (args result : JsValue) (isError : bool)
    (type : string) :
  let s := settled (next_fault (push_kind ed) w) in
  let out := outputQueue process_env ed in
  pushes (effects (on_event process_env ed id text (message_start msg) w))
    = (if String.eqb (role msg) "assistant"
       then [(out, JObj [("id", id); ("status", JStr "progress");
                         ("event", JStr "llm_start")], s)]
       else [])
  /\ pushes (effects (on_event process_env ed id text (message_end msg) w))
    = (if String.eqb (role msg) "assistant"
       then [(out, JObj [("id", id); ("status", JStr "progress");
                         ("event", JStr "llm_end")], s)]
       else [])
  /\ pushes (effects (on_event process_env ed id text (tool_execution_start toolName args) w))
    = [(out, JObj [("id", id); ("status", JStr "progress"); ("event", JStr "tool_start");
                   ("data", JObj [("tool", JStr toolName); ("args", args)])], s)]
  /\ pushes (effects (on_event process_env ed id text
                        (tool_execution_end toolName result isError) w))
    = [(out, JObj [("id", id); ("status", JStr "progress"); ("event", JStr "tool_end");
                   ("data", JObj [("tool", JStr toolName); ("result", result);
                                  ("isError", JBool isError)])], s)]
  /\ pushes (effects (on_event process_env ed id text (other_event type) w)) = [].
Proof.
  cbv zeta. rewrite !on_event_run. cbn [progress_of].
  destruct (String.eqb (role msg) "assistant");
    destruct ed, (next_fault _ w); repeat split; reflexivity.
Qed.

(** ** The control-signal handler *)

Ltac run_handler :=
  unfold on_message, on_message_legacy, on_message_reset, route_signal, try_catch,
    prop, push, call, log_template, log, error, emit, get_currentTaskId;
  repeat first
    [ progress cbn
    | progress unfold call, invoke, settle, bind, ret, throw, lift, next_fault ].


(** The other side of the stop branch: a slot whose value does not convert
    to a string stops the handler of index.ts and of the list edition with
    reset at the log line; the catch writes its error line and abort is not
    called. *)
Lemma stop_with_unprintable_slot_is_dropped (ed : Edition) (rawSignal : string)
    (props : list (string * JsValue)) (w : World) :
  ed <> ListLegacy ->
  JSON_parse rawSignal = inr (JObj props) ->
  lookup "command" props = JStr "stop" ->
  stringifiable (js_or (currentTaskId w) (JStr "none")) = false ->
  on_message JSON_parse process_env ed rawSignal w
  = (Returned tt, w, [LogError (LControlParseFailed rawSignal)]).
Proof.
  intros Hed Hp Hc Hs.
  destruct ed; [| contradiction |];
    run_handler; rewrite Hp; run_handler; rewrite Hc; run_handler;
    rewrite Hs; run_handler; reflexivity.
Qed.

(** The legacy edition also takes the bare literal STOP, which is not JSON:
    its catch logs and calls abort, with nothing interpolated. *)
Lemma legacy_plain_stop_aborts (e : Exn) (w : World) :
  JSON_parse "STOP" = inl e ->
  effects (on_message JSON_parse process_env ListLegacy "STOP" w)
  = [Log LPlainStop; Call agent_abort (settled (next_fault KAbort w))].
Proof.
  intros Hp. run_handler. rewrite Hp. run_handler.
  destruct (hd None (faults w KAbort)); reflexivity.
Qed.

(** C3, as amended.  A steer signal is forwarded to the steer operation of
    the session, after its log line, exactly when it carries a truthy
    message and that line can be built, whether or not a task occupies the
    slot.  The line can be built when the value in the slot and the message
    convert to strings, as undefined and every string do.  A steer signal
    without a truthy message is dropped with no call and no log line; one
    whose line cannot be built makes no call to steer. *)
Theorem steer_is_forwarded_iff_it_has_a_message (ed : Edition) (rawSignal : string)
    (props : list (string * JsValue)) (w : World) :
  JSON_parse rawSignal = inr (JObj props) ->
  lookup "command" props = JStr "steer" ->
  (truthy (lookup "message" props) = true ->
   stringifiable (js_or (currentTaskId w) (JStr "none")) = true ->
   stringifiable (lookup "message" props) = true ->
   exists rest : list Effect,
     effects (on_message JSON_parse process_env ed rawSignal w)
       = Log (LSteer (js_or (currentTaskId w) (JStr "none")) (lookup "message" props))
           :: Call (session_steer (lookup "message" props)) (settled (next_fault KSteer w))
           :: rest
     /\ steer_calls (effects (on_message JSON_parse process_env ed rawSignal w))
        = [lookup "message" props])
  /\ (truthy (lookup "message" props) = false ->
      effects (on_message JSON_parse process_env ed rawSignal w) = [])
  /\ (truthy (lookup "message" props) = true ->
      stringifiable (js_or (currentTaskId w) (JStr "none"))
        && stringifiable (lookup "message" props) = false ->
      steer_calls (effects (on_message JSON_parse process_env ed rawSignal w)) = []).
Proof.
  intros Hp Hc.
  split; [|split].
  - intros Hm Hs1 Hs2.
    destruct ed; run_handler; rewrite Hp; run_handler; rewrite Hc; run_handler;
      rewrite Hm; run_handler; rewrite Hs1, Hs2; run_handler;
      destruct (hd None (faults w KSteer)) as [e|] eqn:E; run_handler;
      try destruct (String.eqb rawSignal "STOP"); run_handler;
      try destruct (hd None (faults w KAbort)); run_handler;
      eexists; split; reflexivity.
  - intros Hm.
    destruct ed; run_handler; rewrite Hp; run_handler; rewrite Hc; run_handler;
      rewrite Hm; run_handler; reflexivity.
  - intros Hm Hs.
    assert (Hs' : stringifiable (js_or (currentTaskId w) (JStr "none"))
                  && (stringifiable (lookup "message" props) && true) = false)
      by (rewrite andb_true_r; exact Hs).
    destruct ed; run_handler; rewrite Hp; run_handler; rewrite Hc; run_handler;
      rewrite Hm; run_handler; rewrite Hs'; run_handler;
      try destruct (String.eqb rawSignal "STOP"); run_handler;
      try destruct (hd None (faults w KAbort)); run_handler; reflexivity.
Qed.

(** C7, as amended.  For every reset signal, whatever the slot holds, the
    handler first asks the session to start anew and, once that has
    completed, enqueues exactly one greeting task on the input queue.  The
    task carries the id of the signal: it has no id only when the signal
    has none. *)
Theorem reset_discards_then_enqueues_greeting (ed : Edition) (rawSignal : string)
    (props : list (string * JsValue)) (w : World) :
  ed <> ListLegacy ->
  JSON_parse rawSignal = inr (JObj props) ->
  lookup "command" props = JStr "reset" ->
  next_fault KNewSession w = None ->
  let task := JObj [("id", lookup "id" props); ("source", JStr "internal");
                    ("prompt", JStr (greeting ed))] in
  let s := settled (next_fault (push_kind ed) w) in
  effects (on_message JSON_parse process_env ed rawSignal w)
    = ([Log LReset; Call session_newSession true;
        Call (push_command ed (inputQueue process_env ed) task) s]
       ++ (if s then [] else [LogError (LControlParseFailed rawSignal)]))%list
  /\ pushes (effects (on_message JSON_parse process_env ed rawSignal w))
     = [(inputQueue process_env ed, task, s)].
Proof.
  intros Hed Hp Hc Hn. cbv zeta. unfold next_fault in Hn.
  destruct ed; [| contradiction |];
    run_handler; rewrite Hp; run_handler; rewrite Hc; run_handler;
    rewrite Hn; run_handler;
    match goal with
    | |- context [hd None (faults w ?k)] => destruct (hd None (faults w k))
    end; run_handler; split; reflexivity.
Qed.

(** C9.  The handler of index.ts and of the list edition with reset never
    throws, whatever the signal text and however the calls it makes settle:
    every exception of its try block, from whichever statement, ends in the
    one catch, which writes an error line and returns. *)
Theorem control_handler_never_throws (rawSignal : string) (w : World) :
  (outcome (on_message JSON_parse process_env Stream rawSignal w) = Returned tt
   /\ forall e,
        outcome (route_signal JSON_parse process_env Stream rawSignal w) = Thrown e ->
        effects (on_message JSON_parse process_env Stream rawSignal w)
        = (effects (route_signal JSON_parse process_env Stream rawSignal w)
           ++ [LogError (LControlParseFailed rawSignal)])%list)
  /\ (outcome (on_message JSON_parse process_env ListReset rawSignal w) = Returned tt
      /\ forall e,
           outcome (route_signal JSON_parse process_env ListReset rawSignal w) = Thrown e ->
           effects (on_message JSON_parse process_env ListReset rawSignal w)
           = (effects (route_signal JSON_parse process_env ListReset rawSignal w)
              ++ [LogError (LControlParseFailed rawSignal)])%list).
Proof.
  split; unfold on_message, on_message_reset, try_catch;
    match goal with
    | |- context [route_signal ?a ?b ?ed ?raw ?w0] =>
        destruct (route_signal a b ed raw w0) as [[[[] | e0] w1] t1]
    end; cbn; split; try reflexivity; intros e H; try discriminate H; reflexivity.
Qed.

(** The failures the try block can raise, one by one. *)

Lemma malformed_signal_is_logged (ed : Edition) (rawSignal : string) (e : Exn) (w : World) :
  ed <> ListLegacy ->
  JSON_parse rawSignal = inl e ->
  on_message JSON_parse process_env ed rawSignal w
  = (Returned tt, w, [LogError (LControlParseFailed rawSignal)]).
Proof.
  intros Hed Hp. destruct ed; [| contradiction |];
    run_handler; rewrite Hp; run_handler; reflexivity.
Qed.

Lemma null_signal_is_logged (ed : Edition) (rawSignal : string) (w : World) :
  ed <> ListLegacy ->
  JSON_parse rawSignal = inr JNull ->
  on_message JSON_parse process_env ed rawSignal w
  = (Returned tt, w, [LogError (LControlParseFailed rawSignal)]).
Proof.
  intros Hed Hp. destruct ed; [| contradiction |];
    run_handler; rewrite Hp; run_handler; reflexivity.
Qed.

Lemma steer_rejection_is_logged (ed : Edition) (rawSignal : string)
    (props : list (string * JsValue)) (e : Exn) (w : World) :
  ed <> ListLegacy ->
  JSON_parse rawSignal = inr (JObj props) ->
  lookup "command" props = JStr "steer" ->
  truthy (lookup "message" props) = true ->
  stringifiable (js_or (currentTaskId w) (JStr "none")) = true ->
  stringifiable (lookup "message" props) = true ->
  next_fault KSteer w = Some e ->
  outcome (route_signal JSON_parse process_env ed rawSignal w) = Thrown e
  /\ outcome (on_message JSON_parse process_env ed rawSignal w) = Returned tt
  /\ effects (on_message JSON_parse process_env ed rawSignal w)
     = [Log (LSteer (js_or (currentTaskId w) (JStr "none")) (lookup "message" props));
        Call (session_steer (lookup "message" props)) false;
        LogError (LControlParseFailed rawSignal)].
Proof.
  intros Hed Hp Hc Hm Hs1 Hs2 Hs. unfold next_fault in Hs.
  destruct ed; [| contradiction |];
    run_handler; rewrite Hp; run_handler; rewrite Hc; run_handler;
    rewrite Hm; run_handler; rewrite Hs1, Hs2; run_handler;
    rewrite Hs; run_handler; repeat split; reflexivity.
Qed.

Lemma reset_rejection_is_logged (ed : Edition) (rawSignal : string)
    (props : list (string * JsValue)) (e : Exn) (w : World) :
  ed <> ListLegacy ->
  JSON_parse rawSignal = inr (JObj props) ->
  lookup "command" props = JStr "reset" ->
  next_fault KNewSession w = Some e ->
  outcome (route_signal JSON_parse process_env ed rawSignal w) = Thrown e
  /\ outcome (on_message JSON_parse process_env ed rawSignal w) = Returned tt
  /\ effects (on_message JSON_parse process_env ed rawSignal w)
     = [Log LReset; Call session_newSession false;
        LogError (LControlParseFailed rawSignal)].
Proof.
  intros Hed Hp Hc Hs. unfold next_fault in Hs.
  destruct ed; [| contradiction |];
    run_handler; rewrite Hp; run_handler; rewrite Hc; run_handler;
    rewrite Hs; run_handler; repeat split; reflexivity.
Qed.

(** ** The consume loop *)

(** The outer catch of the loop body takes every exception: an iteration
    always returns, so the loop goes on to the next one. *)
Lemma iteration_returns (ed : Edition) (w : World) :
  outcome (iteration JSON_parse process_env ed w) = Returned tt.
Proof.
  destruct ed; unfold iteration, iteration_stream, iteration_list_legacy,
    iteration_list_reset, try_catch;
    match goal with
    | |- context [match ?body w with _ => _ end] =>
        destruct (body w) as [[[[] | e] w1] t1]
    end; reflexivity.
Qed.

Lemma main_loop_step (ed : Edition) (n : nat) (w : World) :
  effects (main_loop JSON_parse process_env ed (S n) w)
  = (effects (iteration JSON_parse process_env ed w)
     ++ effects (main_loop JSON_parse process_env ed n
                   (world (iteration JSON_parse process_env ed w))))%list.
Proof.
  cbn [main_loop]. unfold bind.
  pose proof (iteration_returns ed w) as H.
  destruct (iteration JSON_parse process_env ed w) as [[r w1] t1].
  cbn in H. subst r. cbn.
  destruct (main_loop JSON_parse process_env ed n w1) as [[r2 w2] t2]. reflexivity.
Qed.

Ltac run_iteration :=
  unfold iteration, iteration_stream, await_xreadgroup, try_catch, prop, push, call,
    log_template, log, error, emit, next_stream_read;
  repeat first
    [ progress cbn
    | progress unfold call, invoke, settle, bind, ret, throw, lift, next_fault ].


(** A payload key whose value is the empty text is treated like a missing
    payload: the message is acknowledged. *)
Lemma empty_payload_is_acknowledged (w : World) (stream messageId : string)
    (messages : list (string * list string))
    (streams : list (string * list (string * list string))) :
  next_fault KXReadGroup w = None ->
  hd None (stream_reads w)
    = Some ((stream, (messageId, ["payload"; EmptyString]) :: messages) :: streams) ->
  acks (effects (iteration JSON_parse process_env Stream w)) = [messageId]
  /\ pushes (effects (iteration JSON_parse process_env Stream w)) = [].
Proof.
  intros Hx Hr. unfold next_fault in Hx.
  run_iteration. rewrite Hx. run_iteration. rewrite Hr. run_iteration.
  destruct (hd None (faults w KXAck)); run_iteration; split; reflexivity.
Qed.

(** How an iteration of index.ts reaches the task: a message whose payload
    parses to a value with a truthy prompt is logged, the listener is
    subscribed, and the task runs with [currentTaskId] set to its id; an
    exception that leaves the task ends in the outer catch. *)
Lemma iteration_stream_runs_task (w : World) (stream messageId : string)
    (fields : list string) (messages : list (string * list string))
    (streams : list (string * list (string * list string)))
    (c : Ascii.ascii) (rest : string) (payload id prompt : JsValue) :
  next_fault KXReadGroup w = None ->
  hd None (stream_reads w) = Some ((stream, (messageId, fields) :: messages) :: streams) ->
  find_payload fields = Some (String c rest) ->
  JSON_parse (String c rest) = inr payload ->
  get payload "id" = inr id ->
  get payload "prompt" = inr prompt ->
  truthy prompt = true ->
  stringifiable (js_or id (JStr EmptyString)) = true ->
  stringifiable prompt = true ->
  next_fault KSubscribe w = None ->
  let w0 := mkWorld (faults (consume KSubscribe (consume KXReadGroup w)))
                    (tl (stream_reads w)) (list_reads w) (emissions w) id in
  effects (iteration JSON_parse process_env Stream w)
  = ([Call (redis_xreadgroup consumerGroup consumerName (inputQueue process_env Stream)) true;
      Log (LReceived (Some messageId) (String c rest));
      Log (LProcessing (js_or id (JStr EmptyString)) prompt);
      Call session_subscribe true]
     ++ effects (run_task process_env Stream id prompt messageId w0)
     ++ match outcome (run_task process_env Stream id prompt messageId w0) with
        | Returned _ => []
        | Thrown e => [LogError (LLoopError e); Sleep 5000]
        end)%list.
Proof.
  intros Hx Hr Hf Hp Hid Hprompt Ht Hs1 Hs2 Hs. cbv zeta. unfold next_fault in Hx, Hs.
  unfold iteration, iteration_stream.
  generalize (run_task process_env Stream). intros task.
  run_iteration. rewrite Hx. run_iteration. rewrite Hr. run_iteration.
  rewrite Hf. run_iteration. rewrite Hp. run_iteration.
  rewrite Hid. run_iteration. rewrite Hprompt. run_iteration.
  rewrite Ht. run_iteration. rewrite Hs1, Hs2. run_iteration.
  rewrite Hs. run_iteration.
  unfold consume. cbn [faults stream_reads list_reads emissions currentTaskId].
  match goal with
  | |- context [task id prompt messageId ?w1] =>
      destruct (task id prompt messageId w1) as [[[[] | e] w2] t2]
  end; run_iteration; rewrite ?app_nil_r; reflexivity.
Qed.

(** A value that is falsy is a primitive, and primitives convert to
    strings: where [id || text] has been converted, [id] converts too. *)
Lemma task_is_entered_with_a_printable_id (id : JsValue) (text : string) :
  stringifiable (js_or id (JStr text)) = true -> stringifiable id = true.
Proof.
  unfold js_or. destruct (truthy id) eqn:E; [trivial|].
  intros _. destruct id; try reflexivity; discriminate E.
Qed.

(** A task whose id or prompt does not convert to a string stops the
    iteration of index.ts at the Processing line: the exception ends in the
    outer catch, the listener is never subscribed, the prompt never runs,
    nothing is written or acknowledged, and [currentTaskId] keeps the id of
    the task. *)
Lemma unprintable_task_is_a_loop_error (w : World) (stream messageId : string)
    (fields : list string) (messages : list (string * list string))
    (streams : list (string * list (string * list string)))
    (c : Ascii.ascii) (rest : string) (payload id prompt : JsValue) :
  next_fault KXReadGroup w = None ->
  hd None (stream_reads w) = Some ((stream, (messageId, fields) :: messages) :: streams) ->
  find_payload fields = Some (String c rest) ->
  JSON_parse (String c rest) = inr payload ->
  get payload "id" = inr id ->
  get payload "prompt" = inr prompt ->
  truthy prompt = true ->
  stringifiable (js_or id (JStr EmptyString)) && stringifiable prompt = false ->
  effects (iteration JSON_parse process_env Stream w)
  = [Call (redis_xreadgroup consumerGroup consumerName (inputQueue process_env Stream)) true;
     Log (LReceived (Some messageId) (String c rest));
     LogError (LLoopError (TypeError "Cannot convert object to primitive value"));
     Sleep 5000]
  /\ currentTaskId (world (iteration JSON_parse process_env Stream w)) = id.
Proof.
  intros Hx Hr Hf Hp Hid Hprompt Ht Hs. unfold next_fault in Hx.
  assert (Hs' : stringifiable (js_or id (JStr EmptyString))
                && (stringifiable prompt && true) = false)
    by (rewrite andb_true_r; exact Hs).
  run_iteration. rewrite Hx. run_iteration. rewrite Hr. run_iteration.
  rewrite Hf. run_iteration. rewrite Hp. run_iteration.
  rewrite Hid. run_iteration. rewrite Hprompt. run_iteration.
  rewrite Ht. run_iteration. rewrite Hs'. run_iteration. split; reflexivity.
Qed.

End Properties.

(** ** The examples of the specification, run *)

(** Task t1 with prompt hello, answered by message_start and
    message_end with text hi: llm_start, llm_end, the success record with
    response hi, then the acknowledgment. *)
Example task_t1_runs :
  effects (main_loop JSON_parse_sample no_env Stream 1 greeting_world)
  = [Call (redis_xreadgroup "agent-group" "agent-0" "agent_in") true;
     Log (LReceived (Some "1-0") task_text);
     Log (LProcessing (JStr "t1") (JStr "hello"));
     Call session_subscribe true;
     Call (session_prompt (JStr "hello")) true;
     Call (redis_xadd "agent_out"
             (JObj [("id", JStr "t1"); ("status", JStr "progress");
                    ("event", JStr "llm_start")])) true;
     Call (redis_xadd "agent_out"
             (JObj [("id", JStr "t1"); ("status", JStr "progress");
                    ("event", JStr "llm_end")])) true;
     Log (LCompleted (JStr "t1"));
     Call (redis_xadd "agent_out"
             (JObj [("id", JStr "t1"); ("response", JStr "hi");
                    ("status", JStr "success")])) true;
     Call session_unsubscribe true;
     Call (redis_xack "agent_in" "agent-group" "1-0") true].
Proof. reflexivity. Qed.

(** A payload that is not JSON: a logged parse failure and nothing else. *)
Example not_json_is_skipped :
  effects (main_loop JSON_parse_sample no_env Stream 1
             not_json_world)
  = [Call (redis_xreadgroup "agent-group" "agent-0" "agent_in") true;
     Log (LReceived (Some "1-0") "not-json");
     LogError (LParseFailed "not-json")].
Proof. reflexivity. Qed.

(** ** Counterexamples to the claims as stated *)

(** C1 as stated fails.  The prompt of task t1 fails and the write of its
    error record is rejected: no result record reaches the output stream, and
    the message 1-0 is acknowledged all the same. *)
Lemma ack_without_published_result :
  effects (iteration JSON_parse_sample no_env Stream failing_publish_world)
  = [Call (redis_xreadgroup "agent-group" "agent-0" "agent_in") true;
     Log (LReceived (Some "1-0") task_text);
     Log (LProcessing (JStr "t1") (JStr "hello"));
     Call session_subscribe true;
     Call (session_prompt (JStr "hello")) false;
     LogError (LTaskError (JStr "t1") (mkExn "Error" "boom"));
     Call (redis_xadd "agent_out"
             (JObj [("id", JStr "t1"); ("error", JStr "boom");
                    ("status", JStr "error")])) false;
     Call session_unsubscribe true;
     Call (redis_xack "agent_in" "agent-group" "1-0") true;
     LogError (LLoopError (mkExn "Error" "Connection is closed."));
     Sleep 5000]
  /\ published_results
       (effects (iteration JSON_parse_sample no_env Stream failing_publish_world)) = []
  /\ acks (effects (iteration JSON_parse_sample no_env Stream failing_publish_world))
     = ["1-0"].
Proof. repeat split; reflexivity. Qed.


(** C3 as stated fails.  A steer signal while [currentTaskId] is
    undefined: the message is passed to the steer operation of the session,
    in index.ts and in the legacy edition. *)
Lemma steer_while_idle_is_forwarded :
  currentTaskId (quiet JUndefined) = JUndefined
  /\ JSON_parse_sample steer_text
     = inr (JObj [("command", JStr "steer"); ("message", JStr "go left")])
  /\ effects (on_message JSON_parse_sample no_env Stream steer_text (quiet JUndefined))
     = [Log (LSteer (JStr "none") (JStr "go left"));
        Call (session_steer (JStr "go left")) true]
  /\ effects (on_message JSON_parse_sample no_env ListLegacy steer_text (quiet JUndefined))
     = [Log (LSteer (JStr "none") (JStr "go left"));
        Call (session_steer (JStr "go left")) true].
Proof. repeat split; reflexivity. Qed.

(** C7 as stated fails.  A reset signal that carries the id r1 enqueues a
    greeting task with that id, not a task without one; and when the
    session refuses to start anew, nothing is enqueued. *)
Lemma reset_with_id_enqueues_task_with_id :
  JSON_parse_sample reset_text_with_id
  = inr (JObj [("command", JStr "reset"); ("id", JStr "r1")])
  /\ pushes (effects (on_message JSON_parse_sample no_env Stream reset_text_with_id
                        (quiet JUndefined)))
     = [("agent_in",
         JObj [("id", JStr "r1"); ("source", JStr "internal");
               ("prompt", JStr (greeting Stream))], true)]
  /\ pushes (effects (on_message JSON_parse_sample no_env ListReset reset_text_with_id
                        (quiet JUndefined)))
     = [("agent_in",
         JObj [("id", JStr "r1"); ("source", JStr "internal");
               ("prompt", JStr (greeting ListReset))], true)]
  /\ effects (on_message JSON_parse_sample no_env Stream reset_text stuck_session_world)
     = [Log LReset; Call session_newSession false;
        LogError (LControlParseFailed reset_text)].
Proof. repeat split; reflexivity. Qed.

(** ** The theorems at concrete inputs *)

(** C1 at the task t1 whose prompt fails while the publisher is down. *)
Lemma ack_is_last_witness :
  next_fault KUnsubscribe failing_publish_world = None
  /\ exists (before : list Effect) (s : bool),
       effects (run_task no_env Stream (JStr "t1") (JStr "hello") "1-0" failing_publish_world)
       = (before ++ [Call session_unsubscribe true;
                     Call (redis_xack (inputQueue no_env Stream) consumerGroup "1-0") s])%list
       /\ acks before = []
       /\ result_pushes before <> []
       /\ acks (effects (run_task no_env Stream (JStr "t1") (JStr "hello") "1-0"
                           failing_publish_world)) = ["1-0"].
Proof.
  split; [reflexivity|].
  exact (ack_is_last_on_every_exit_path no_env (JStr "t1") (JStr "hello") "1-0"
           failing_publish_world eq_refl).
Defined.

(** C4 at an aborted prompt. *)
Lemma failed_task_witness :
  next_fault KPrompt aborted_world = Some (mkExn "Error" "Aborted")
  /\ exists (text : string) (s : bool),
       result_pushes (effects (run_task no_env Stream (JStr "t1") (JStr "hello") "1-0"
                                 aborted_world))
       = [(outputQueue no_env Stream,
           JObj [("id", JStr "t1"); ("error", JStr text); ("status", JStr "error")], s)]
       /\ (message (mkExn "Error" "Aborted") = "Aborted" ->
           text = "Task aborted by user" /\ text <> message (mkExn "Error" "Aborted"))
       /\ (message (mkExn "Error" "Aborted") <> "Aborted" ->
           text = message (mkExn "Error" "Aborted")).
Proof.
  split; [reflexivity|].
  exact (failed_task_publishes_error_record no_env (JStr "t1") (JStr "hello") "1-0"
           aborted_world (mkExn "Error" "Aborted") eq_refl).
Defined.

(** C5 at the task t1 answered with the text hi. *)
Lemma success_response_witness :
  next_fault KPrompt greeting_world = None
  /\ response_text [message_start (mkMessage "assistant" []);
                    message_end (mkMessage "assistant" [mkBlock "text" "hi"])] = "hi"
  /\ exists (s : bool) (rest : list (string * JsValue * bool)),
       result_pushes (effects (run_task no_env Stream (JStr "t1") (JStr "hello") "1-0"
                                 greeting_world))
       = (outputQueue no_env Stream,
          JObj [("id", JStr "t1");
                ("response",
                 JStr (response_text
                         [message_start (mkMessage "assistant" []);
                          message_end (mkMessage "assistant" [mkBlock "text" "hi"])]));
                ("status", JStr "success")], s) :: rest
       /\ (s = true -> rest = [])
       /\ Forall (fun r => exists e s',
                    r = (outputQueue no_env Stream, errorPayload (JStr "t1") e, s')) rest.
Proof.
  split; [reflexivity|]. split; [reflexivity|].
  exact (success_response_is_assistant_text no_env Stream (JStr "t1") (JStr "hello") "1-0"
           greeting_world _ eq_refl eq_refl).
Defined.

(** C10 at two aborted prompts of the legacy edition, raised by errors of
    different names in different worlds. *)
Lemma abort_classification_witness :
  next_fault KPrompt aborted_world = Some (mkExn "Error" "Aborted")
  /\ next_fault KPrompt
       other_aborted_world
     = Some (mkExn "AbortError" "Aborted")
  /\ map (fun p => snd (fst p))
         (result_pushes (effects (run_task no_env ListLegacy (JStr "t1") (JStr "hello")
                                    EmptyString aborted_world)))
     = [JObj [("id", JStr "t1"); ("error", JStr "Task aborted by user");
              ("status", JStr "error")]]
  /\ map (fun p => snd (fst p))
         (result_pushes
            (effects (run_task no_env ListLegacy (JStr "t1") (JStr "again") EmptyString
                        other_aborted_world)))
     = map (fun p => snd (fst p))
           (result_pushes (effects (run_task no_env ListLegacy (JStr "t1") (JStr "hello")
                                      EmptyString aborted_world))).
Proof.
  split; [reflexivity|]. split; [reflexivity|].
  exact (abort_classification_is_by_message no_env ListLegacy (JStr "t1") (JStr "hello")
           (JStr "again") EmptyString EmptyString aborted_world other_aborted_world
           (mkExn "Error" "Aborted") (mkExn "AbortError" "Aborted")
           eq_refl eq_refl eq_refl).
Defined.


(** C3 at the steer signal with the message go left. *)
Lemma steer_is_forwarded_witness :
  JSON_parse_sample steer_text
  = inr (JObj [("command", JStr "steer"); ("message", JStr "go left")])
  /\ stringifiable (js_or (currentTaskId (quiet (JStr "t1"))) (JStr "none")) = true
  /\ stringifiable (JStr "go left") = true
  /\ exists rest : list Effect,
       effects (on_message JSON_parse_sample no_env Stream steer_text (quiet (JStr "t1")))
       = Log (LSteer (JStr "t1") (JStr "go left"))
           :: Call (session_steer (JStr "go left")) true :: rest
       /\ steer_calls (effects (on_message JSON_parse_sample no_env Stream steer_text
                                  (quiet (JStr "t1")))) = [JStr "go left"].
Proof.
  split; [reflexivity|]. split; [reflexivity|]. split; [reflexivity|].
  exact (proj1 (steer_is_forwarded_iff_it_has_a_message JSON_parse_sample no_env Stream
                  steer_text [("command", JStr "steer"); ("message", JStr "go left")]
                  (quiet (JStr "t1")) eq_refl eq_refl) eq_refl eq_refl eq_refl).
Defined.

(** C7 at the reset signal without an id, while task t1 is running. *)
Lemma reset_enqueues_greeting_witness :
  JSON_parse_sample reset_text = inr (JObj [("command", JStr "reset")])
  /\ next_fault KNewSession (quiet (JStr "t1")) = None
  /\ effects (on_message JSON_parse_sample no_env Stream reset_text (quiet (JStr "t1")))
     = [Log LReset; Call session_newSession true;
        Call (redis_xadd "agent_in"
                (JObj [("id", JUndefined); ("source", JStr "internal");
                       ("prompt", JStr (greeting Stream))])) true].
Proof.
  split; [reflexivity|]. split; [reflexivity|].
  assert (Hed : Stream <> ListLegacy) by discriminate.
  exact (proj1 (reset_discards_then_enqueues_greeting JSON_parse_sample no_env Stream
                  reset_text [("command", JStr "reset")] (quiet (JStr "t1"))
                  Hed eq_refl eq_refl eq_refl)).
Defined.


(** * More of the code *)

(** ** Calls, by kind *)

Lemma calls_app (t1 t2 : list Effect) : calls (t1 ++ t2)%list = (calls t1 ++ calls t2)%list.
Proof. apply flat_map_app. Qed.

Lemma calls_of_app (k : Kind) (t1 t2 : list Effect) :
  calls_of k (t1 ++ t2)%list = (calls_of k t1 ++ calls_of k t2)%list.
Proof. unfold calls_of. now rewrite calls_app, filter_app. Qed.

Lemma reads_app (t1 t2 : list Effect) : reads (t1 ++ t2)%list = reads t1 + reads t2.
Proof. unfold reads. rewrite !calls_of_app, !length_app. lia. Qed.

Lemma calls_of_progress (ed : Edition) (k : Kind) (t : list Effect) :
  k <> push_kind ed ->
  Forall (fun e => is_progress_effect ed e = true) t ->
  calls_of k t = [].
Proof.
  intros Hk H. induction H as [|e t He _ IH]; [reflexivity|].
  change (e :: t) with ([e] ++ t)%list. rewrite calls_of_app, IH, app_nil_r.
  destruct e as [l | l | c s | ms]; try reflexivity.
  cbn in He. unfold calls_of. cbn.
  destruct (Kind_eqb (kind_of c) k) eqn:E; [|reflexivity].
  apply Kind_eqb_eq in E. apply Kind_eqb_eq in He. congruence.
Qed.

(** ** Substrings *)

Lemma starts_with_spec (s sub : string) :
  starts_with s sub = true <-> exists post, s = sub ++ post.
Proof.
  revert s. induction sub as [|b sub IH]; intros s.
  - split; [intros _; now exists s | intros _; destruct s; reflexivity].
  - destruct s as [|a s]; cbn.
    + split; [discriminate | intros [post H]; discriminate H].
    + rewrite andb_true_iff, IH. split.
      * intros [Hab [post Hp]]. apply Ascii.eqb_eq in Hab. subst. now exists post.
      * intros [post Hp]. inversion Hp; subst. split; [apply Ascii.eqb_refl | now exists post].
Qed.

Lemma includes_spec (s sub : string) :
  includes s sub = true <-> exists pre post, s = pre ++ sub ++ post.
Proof.
  induction s as [|a s IH].
  - cbn [includes]. rewrite orb_false_r, starts_with_spec. split.
    + intros [post H]. now exists EmptyString, post.
    + intros [pre [post H]]. destruct pre; [now exists post | discriminate H].
  - cbn [includes]. rewrite orb_true_iff, starts_with_spec, IH. split.
    + intros [[post H] | [pre [post H]]].
      * now exists EmptyString, post.
      * exists (String a pre), post. cbn. now rewrite H.
    + intros [pre [post H]]. destruct pre as [|a' pre].
      * left. now exists post.
      * right. inversion H; subst. now exists pre, post.
Qed.

Lemma starts_with_empty (s : string) : starts_with s EmptyString = true.
Proof. destruct s; reflexivity. Qed.

Lemma includes_char_app (a b : string) (c : ascii) :
  includes (a ++ b) (String c EmptyString)
  = includes a (String c EmptyString) || includes b (String c EmptyString).
Proof.
  induction a as [|x a IH].
  - cbn. destruct b; reflexivity.
  - cbn. rewrite IH, !starts_with_empty. destruct (Ascii.eqb x c); reflexivity.
Qed.

(** The first occurrence of a character is the one replaced. *)
Lemma replace_first_char (a b : string) (c : ascii) (r : string) :
  includes a (String c EmptyString) = false ->
  replace (a ++ String c b) (String c EmptyString) r = a ++ r ++ b.
Proof.
  induction a as [|x a IH]; intros H.
  - cbn. now rewrite Ascii.eqb_refl, starts_with_empty.
  - cbn in H. rewrite starts_with_empty in H. apply orb_false_elim in H.
    destruct H as [Hx Ha]. rewrite andb_true_r in Hx.
    cbn. rewrite Hx. cbn. now rewrite IH.
Qed.

(** X21.  logger.ts: for an ISO time stamp, a date part without T or Z,
    the letter T, a time part without Z, the letter Z, the prefix of a log
    line is the date, a blank and the time between brackets. *)
Theorem timestamp_of_iso (date time message : string) :
  includes date "T" = false ->
  includes date "Z" = false ->
  includes time "Z" = false ->
  timestamp (date ++ "T" ++ time ++ "Z") = date ++ " " ++ time
  /\ log_text (date ++ "T" ++ time ++ "Z") message
     = "[" ++ date ++ " " ++ time ++ "] " ++ message.
Proof.
  intros HT HZd HZt.
  assert (H : timestamp (date ++ "T" ++ time ++ "Z") = date ++ " " ++ time).
  { unfold timestamp.
    change ("T" ++ time ++ "Z") with (String "T" (time ++ "Z")).
    rewrite (replace_first_char date (time ++ "Z") "T" " " HT).
    replace (date ++ " " ++ time ++ "Z") with ((date ++ " " ++ time) ++ String "Z" EmptyString).
    - rewrite replace_first_char.
      + cbn. now rewrite !append_empty_r.
      + rewrite includes_char_app, HZd. cbn [orb].
        change (" " ++ time) with (String " " time). cbn. exact HZt.
    - rewrite !append_assoc. reflexivity. }
  split; [exact H|]. unfold log_text. rewrite H.
  cbn. rewrite !append_assoc. reflexivity.
Qed.

(** X15.  The scan of the field list finds a payload that is not empty
    exactly when the first key payload at an even position is followed by
    it: a value that happens to read payload is never taken for the key,
    and later payload keys are not looked at. *)
Theorem payload_is_the_value_after_the_first_key (fields : list string) (c : ascii)
    (rest : string) :
  find_payload fields = Some (String c rest)
  <-> exists i,
        nth_error fields (2 * i) = Some "payload"
        /\ (forall j, j < i -> nth_error fields (2 * j) <> Some "payload")
        /\ nth_error fields (2 * i + 1) = Some (String c rest).
Proof.
  split.
  - induction fields as [| key | key value tail IH] using pairs_ind.
    + discriminate.
    + cbn. destruct (String.eqb key "payload"); discriminate.
    + cbn [find_payload]. destruct (String.eqb_spec key "payload") as [E|E].
      * intros H. inversion H; subst. exists 0. repeat split; try reflexivity.
        intros j Hj. lia.
      * intros H. destruct (IH H) as (i & Hk & Hfirst & Hv). exists (S i).
        destruct (nth_error_pair_step key value tail i) as [E1 E2].
        rewrite E1, E2. repeat split; try assumption.
        intros [|j] Hj Hn.
        -- cbn in Hn. inversion Hn. contradiction.
        -- rewrite (proj1 (nth_error_pair_step key value tail j)) in Hn.
           apply (Hfirst j); [lia | exact Hn].
  - intros (i & Hk & Hfirst & Hv). exact (find_payload_first i fields _ Hk Hfirst Hv).
Qed.

Section Coverage.
Variable JSON_parse : string -> Exn + JsValue.
Variable process_env : string -> option string.

Lemma deliver_trace (ed : Edition) (id : JsValue) (events : list AgentEvent) :
  forall (text : string) (w : World),
    Forall (fun e => is_progress_effect ed e = true)
           (effects (deliver (on_event process_env ed id) events text w))
    /\ map (fun p => (fst (fst p), snd (fst p)))
           (pushes (effects (deliver (on_event process_env ed id) events text w)))
       = map (fun r => (outputQueue process_env ed, r)) (progress_records id events)
    /\ (faults w (push_kind ed) = [] ->
        faults (world (deliver (on_event process_env ed id) events text w)) (push_kind ed) = []
        /\ Forall (fun p => snd p = true)
                  (pushes (effects (deliver (on_event process_env ed id) events text w)))).
Proof.
  induction events as [|event events IH]; intros text w.
  - cbn. repeat split; auto.
  - cbn [deliver]. unfold bind. rewrite on_event_run.
    unfold progress_records. cbn [flat_map]. fold (progress_records id events).
    destruct (progress_of id event) as [progress|] eqn:Hp.
    + destruct (IH (collect text event) (consume (push_kind ed) w)) as (H1 & H2 & H3).
      destruct (deliver (on_event process_env ed id) events (collect text event)
                  (consume (push_kind ed) w)) as [[r w'] t] eqn:Hd.
      cbn [effects world fst snd] in *.
      split; [|split].
      * constructor; [destruct ed; reflexivity|].
        destruct (next_fault (push_kind ed) w); [constructor; [reflexivity|]|]; exact H1.
      * rewrite map_app. change (?a :: ?l ++ t)%list with ([a] ++ l ++ t)%list.
        rewrite !pushes_app, !map_app, H2.
        destruct ed, (next_fault _ w); reflexivity.
      * intros Hn. unfold next_fault. rewrite Hn. cbn [hd settled].
        assert (Hc : faults (consume (push_kind ed) w) (push_kind ed) = []).
        { cbn. destruct (Kind_eqb (push_kind ed) (push_kind ed)); now rewrite Hn. }
        destruct (H3 Hc) as [H4 H5]. split; [exact H4|].
        change (?a :: [] ++ t)%list with ([a] ++ t)%list. rewrite pushes_app.
        apply Forall_app. split; [|exact H5].
        destruct ed; repeat constructor.
    + destruct (IH (collect text event) w) as (H1 & H2 & H3).
      destruct (deliver (on_event process_env ed id) events (collect text event) w)
        as [[r w'] t] eqn:Hd.
      cbn [effects world fst snd app] in *. repeat split; try assumption; apply H3; assumption.
Qed.

Lemma await_prompt_run (ed : Edition) (id prompt : JsValue) (w : World) :
  await_session_prompt prompt (on_event process_env ed id) EmptyString w
  = (match next_fault KPrompt w with
     | None => Returned (response_text (hd [] (emissions w)))
     | Some e => Thrown e
     end,
     world (deliver (on_event process_env ed id) (hd [] (emissions w)) EmptyString
              (after_prompt w)),
     Call (session_prompt prompt) (settled (next_fault KPrompt w))
       :: effects (deliver (on_event process_env ed id) (hd [] (emissions w)) EmptyString
                     (after_prompt w))).
Proof.
  unfold await_session_prompt, bind. cbn [invoke next_emission].
  change (mkWorld (faults (consume (kind_of (session_prompt prompt)) w))
                  (stream_reads (consume (kind_of (session_prompt prompt)) w))
                  (list_reads (consume (kind_of (session_prompt prompt)) w))
                  (tl (emissions (consume (kind_of (session_prompt prompt)) w)))
                  (currentTaskId (consume (kind_of (session_prompt prompt)) w)))
    with (after_prompt w).
  change (emissions (consume (kind_of (session_prompt prompt)) w)) with (emissions w).
  change (kind_of (session_prompt prompt)) with KPrompt.
  destruct (deliver_on_event process_env ed id (hd [] (emissions w)) EmptyString (after_prompt w))
    as (w1 & t1 & Hd & _).
  rewrite Hd. cbn [world effects fst snd].
  destruct (next_fault KPrompt w); cbn; rewrite ?app_nil_r; reflexivity.
Qed.

(** One task, whole: its effects, the exception that leaves it, and what it
    does to the slot and to the outcomes still ahead. *)
Lemma run_task_run (ed : Edition) (id prompt : JsValue) (messageId : string) (w : World) :
  let d := deliver (on_event process_env ed id) (hd [] (emissions w)) EmptyString
             (after_prompt w) in
  let p1 := next_fault (push_kind ed) (world d) in
  let p2 := next_fault (push_kind ed) (consume (push_kind ed) (world d)) in
  let f := next_fault KPrompt w in
  let u := next_fault KUnsubscribe w in
  let a := next_fault KXAck w in
  effects (run_task process_env ed id prompt messageId w)
  = ((Call (session_prompt prompt) (settled f) :: effects d)
     ++ match f with
        | None =>
            Log (LCompleted (task_label ed id))
            :: Call (push_command ed (outputQueue process_env ed)
                       (resultPayload id (response_text (hd [] (emissions w)))))
                    (settled p1)
            :: match p1 with
               | None => []
               | Some e =>
                   [failure_line ed id e;
                    Call (push_command ed (outputQueue process_env ed) (errorPayload id e))
                         (settled p2)]
               end
        | Some err =>
            [failure_line ed id err;
             Call (push_command ed (outputQueue process_env ed) (errorPayload id err))
                  (settled p1)]
        end
     ++ Call session_unsubscribe (settled u)
        :: match u, ed with
           | None, Stream =>
               [Call (redis_xack (inputQueue process_env Stream) consumerGroup messageId)
                     (settled a)]
           | _, _ => []
           end)%list
  /\ currentTaskId (world (run_task process_env ed id prompt messageId w))
     = match u with
       | None => JUndefined
       | Some _ => currentTaskId w
       end
  /\ outcome (run_task process_env ed id prompt messageId w)
     = match u with
       | Some eu => Thrown eu
       | None =>
           match ed, a with
           | Stream, Some ea => Thrown ea
           | _, _ =>
               match f, p1 with
               | None, None => Returned tt
               | None, Some _ => match p2 with None => Returned tt | Some e2 => Thrown e2 end
               | Some _, None => Returned tt
               | Some _, Some e1 => Thrown e1
               end
           end
       end
  /\ faults (world (run_task process_env ed id prompt messageId w)) KSubscribe
     = faults w KSubscribe
  /\ faults (world (run_task process_env ed id prompt messageId w)) KNewSession
     = faults w KNewSession
  /\ faults (world (run_task process_env ed id prompt messageId w)) KUnsubscribe
     = tl (faults w KUnsubscribe).
Proof.
  cbv zeta.
  remember (run_task process_env ed id prompt messageId w) as x eqn:Hx.
  unfold run_task, try_catch_finally, try_finally, try_catch in Hx.
  unfold bind at 1 in Hx. rewrite await_prompt_run in Hx.
  destruct (deliver_on_event process_env ed id (hd [] (emissions w)) EmptyString (after_prompt w))
    as (w1 & t1 & Hd & _ & _ & Hf & _ & _ & _ & Hc).
  rewrite Hd in *. cbn [world effects fst snd] in *.
  assert (HU : faults w1 KUnsubscribe = faults w KUnsubscribe).
  { rewrite Hf by (destruct ed; discriminate). reflexivity. }
  assert (HA : faults w1 KXAck = faults w KXAck).
  { rewrite Hf by (destruct ed; discriminate). reflexivity. }
  assert (HS : faults w1 KSubscribe = faults w KSubscribe).
  { rewrite Hf by (destruct ed; discriminate). reflexivity. }
  assert (HN : faults w1 KNewSession = faults w KNewSession).
  { rewrite Hf by (destruct ed; discriminate). reflexivity. }
  cbn [after_prompt currentTaskId] in Hc.
  clear Hd Hf.
  unfold failure_line, push, call, acknowledge, log, error, emit, set_currentTaskId,
    settle, invoke, bind, ret, throw, next_fault in *.
  destruct (hd None (faults w KPrompt)) as [err|] eqn:EP;
    destruct (hd None (faults w KUnsubscribe)) as [eu|] eqn:EU;
    destruct (hd None (faults w KXAck)) as [ea|] eqn:EA;
    destruct (hd None (faults w1 (push_kind ed))) as [e1|] eqn:E1;
    destruct (hd None (tl (faults w1 (push_kind ed)))) as [e2|] eqn:E2;
    destruct ed; cbn [push_kind] in *;
    repeat first
      [ progress cbn in Hx
      | progress unfold call, invoke, settle, bind, ret, throw, next_fault in Hx
      | progress rewrite ?HU, ?HA, ?EP, ?EU, ?EA, ?E1, ?E2 in Hx
      | match type of Hx with
        | context [String.eqb (message ?e) ?s] => destruct (String.eqb (message e) s)
        end ];
    subst x; cbn; rewrite ?HS, ?HN, ?HU, ?Hc, ?E1, ?E2;
    rewrite <- ?app_assoc, ?app_nil_r; repeat split; reflexivity.
Qed.

Lemma calls_of_failure (ed : Edition) (k : Kind) (id : JsValue) (err : Exn) (key : string)
    (p : option Exn) :
  k <> push_kind ed ->
  calls_of k [failure_line ed id err;
              Call (push_command ed key (errorPayload id err)) (settled p)] = [].
Proof.
  intros Hk. unfold failure_line.
  destruct (String.eqb (message err) "Aborted"), ed, k; try reflexivity; contradiction.
Qed.

(** The calls of one task besides its writes: the prompt once, the
    unsubscription once, on the stream edition the acknowledgment when the
    unsubscription returned, and nothing else. *)
Lemma run_task_calls (ed : Edition) (id prompt : JsValue) (messageId : string) (w : World)
    (k : Kind) :
  k <> push_kind ed ->
  calls_of k (effects (run_task process_env ed id prompt messageId w))
  = match k with
    | KPrompt => [(session_prompt prompt, settled (next_fault KPrompt w))]
    | KUnsubscribe => [(session_unsubscribe, settled (next_fault KUnsubscribe w))]
    | KXAck =>
        match next_fault KUnsubscribe w, ed with
        | None, Stream =>
            [(redis_xack (inputQueue process_env Stream) consumerGroup messageId,
              settled (next_fault KXAck w))]
        | _, _ => []
        end
    | _ => []
    end.
Proof.
  intros Hk.
  destruct (run_task_run ed id prompt messageId w) as (He & _). cbv zeta in He.
  destruct (deliver_trace ed id (hd [] (emissions w)) EmptyString (after_prompt w))
    as (Hp & _).
  rewrite He. clear He.
  change (?c :: ?l)%list with ([c] ++ l)%list at 1.
  rewrite !calls_of_app, (calls_of_progress ed k _ Hk Hp), app_nil_r.
  assert (Hm : forall v s l,
             calls_of k (Call (push_command ed (outputQueue process_env ed) v) s :: l)
             = calls_of k l).
  { intros v s l. destruct ed, k; try reflexivity; contradiction. }
  assert (Hmid : calls_of k
            match next_fault KPrompt w with
            | None =>
                Log (LCompleted (task_label ed id))
                :: Call (push_command ed (outputQueue process_env ed)
                           (resultPayload id (response_text (hd [] (emissions w)))))
                        (settled (next_fault (push_kind ed)
                           (world (deliver (on_event process_env ed id)
                                     (hd [] (emissions w)) EmptyString (after_prompt w)))))
                :: match next_fault (push_kind ed)
                           (world (deliver (on_event process_env ed id)
                                     (hd [] (emissions w)) EmptyString (after_prompt w))) with
                   | None => []
                   | Some e =>
                       [failure_line ed id e;
                        Call (push_command ed (outputQueue process_env ed) (errorPayload id e))
                             (settled (next_fault (push_kind ed)
                                (consume (push_kind ed)
                                   (world (deliver (on_event process_env ed id)
                                             (hd [] (emissions w)) EmptyString
                                             (after_prompt w))))))]
                   end
            | Some err =>
                [failure_line ed id err;
                 Call (push_command ed (outputQueue process_env ed) (errorPayload id err))
                      (settled (next_fault (push_kind ed)
                         (world (deliver (on_event process_env ed id)
                                   (hd [] (emissions w)) EmptyString (after_prompt w)))))]
            end = []).
  { destruct (next_fault KPrompt w) as [err|].
    - now apply calls_of_failure.
    - change (Log ?l :: ?t)%list with ([Log l] ++ t)%list. rewrite calls_of_app.
      change (calls_of k [Log (LCompleted (task_label ed id))]) with (@nil (Command * bool)).
      rewrite app_nil_l, Hm.
      destruct (next_fault (push_kind ed) _); [now apply calls_of_failure | reflexivity]. }
  rewrite Hmid. cbn [app]. clear Hmid Hm Hp.
  destruct k, ed; try reflexivity; try (exfalso; apply Hk; reflexivity);
    destruct (next_fault KUnsubscribe w); reflexivity.
Qed.

Lemma reads_cons (e : Effect) (t : list Effect) : reads (e :: t) = reads [e] + reads t.
Proof. exact (reads_app [e] t). Qed.

Ltac unfold_iteration :=
  unfold iteration, iteration_stream, iteration_list_legacy, iteration_list_reset,
    await_xreadgroup, await_blpop, try_catch, prop, push, call, log_template, log, error, emit,
    next_stream_read, next_list_read, set_currentTaskId.

Ltac step_iteration :=
  first
    [ progress cbn -[reads acks pushes result_pushes published_results calls_of]
    | progress unfold call, invoke, settle, bind, ret, throw, lift, next_fault,
        set_currentTaskId ].

(** Case analysis of one iteration with the task kept abstract: [Htask]
    states what is known of every run of the task. *)
Ltac iteration_cases task Htask :=
  repeat first
    [ step_iteration
    | match goal with
      | |- context [task ?a ?b ?c ?d] =>
          let H := fresh "Ht" in
          pose proof (Htask a b c d) as H;
          destruct (task a b c d) as [[[[] | ?] ?] ?];
          cbn -[reads acks pushes result_pushes published_results calls_of] in H
      | |- context [match ?x with _ => _ end] =>
          lazymatch x with
          | context [match _ with _ => _ end] => fail
          | _ => destruct x eqn:?
          end
      end ].


Lemma result_pushes_progress (ed : Edition) (id : JsValue) (events : list AgentEvent)
    (text : string) (w : World) :
  result_pushes (effects (deliver (on_event process_env ed id) events text w)) = [].
Proof.
  destruct (deliver_on_event process_env ed id events text w) as (w' & t & Hd & Hr & _).
  now rewrite Hd.
Qed.

(** X1.  Everything one task writes goes to the output queue, in this
    order: the progress records of the events of its prompt, in emission
    order and whether or not earlier writes were rejected, and after all of
    them its result records. *)
Theorem task_writes_progress_then_result (ed : Edition) (id prompt : JsValue)
    (messageId : string) (w : World) :
  map (fun p => (fst (fst p), snd (fst p)))
      (pushes (effects (run_task process_env ed id prompt messageId w)))
  = map (fun r => (outputQueue process_env ed, r))
        (progress_records id (hd [] (emissions w))
         ++ map (fun p => snd (fst p))
                (result_pushes (effects (run_task process_env ed id prompt messageId w)))).
Proof.
  destruct (run_task_run ed id prompt messageId w) as (He & _). cbv zeta in He.
  destruct (deliver_trace ed id (hd [] (emissions w)) EmptyString (after_prompt w))
    as (_ & Hp & _).
  pose proof (result_pushes_progress ed id (hd [] (emissions w)) EmptyString (after_prompt w))
    as Hr.
  rewrite He. clear He.
  change (Call (session_prompt prompt) ?s :: ?l)%list
    with ([Call (session_prompt prompt) s] ++ l)%list.
  rewrite !pushes_app, !result_pushes_app, !map_app, Hp, Hr.
  unfold failure_line.
  destruct (next_fault KPrompt w) as [err|];
    destruct (next_fault (push_kind ed) _) as [e1|];
    destruct (next_fault KUnsubscribe w);
    destruct ed;
    repeat match goal with
    | |- context [String.eqb (message ?e) ?s] => destruct (String.eqb (message e) s)
    end; cbn; rewrite ?app_nil_r; reflexivity.
Qed.

Lemma faults_after_prompt (ed : Edition) (w : World) :
  faults (after_prompt w) (push_kind ed) = faults w (push_kind ed).
Proof. destruct ed; reflexivity. Qed.

(** X2.  One task never publishes two results: at most one result record
    reaches the output queue.  When no write is rejected exactly one result
    is published, and every progress record is. *)
Theorem task_publishes_at_most_one_result (ed : Edition) (id prompt : JsValue)
    (messageId : string) (w : World) :
  length (published_results (effects (run_task process_env ed id prompt messageId w))) <= 1
  /\ (faults w (push_kind ed) = [] ->
      length (published_results (effects (run_task process_env ed id prompt messageId w))) = 1
      /\ Forall (fun p => snd p = true)
                (pushes (effects (run_task process_env ed id prompt messageId w)))).
Proof.
  destruct (run_task_run ed id prompt messageId w) as (He & _). cbv zeta in He.
  destruct (deliver_trace ed id (hd [] (emissions w)) EmptyString (after_prompt w))
    as (_ & _ & Hn).
  pose proof (result_pushes_progress ed id (hd [] (emissions w)) EmptyString (after_prompt w))
    as Hr.
  rewrite faults_after_prompt in Hn.
  rewrite He. clear He.
  change (Call (session_prompt prompt) ?s :: ?l)%list
    with ([Call (session_prompt prompt) s] ++ l)%list.
  unfold published_results.
  rewrite !pushes_app, !result_pushes_app, Hr.
  unfold failure_line.
  split.
  - destruct (next_fault KPrompt w) as [err|];
      destruct (next_fault (push_kind ed) _) as [e1|];
      try destruct (next_fault (push_kind ed) _) as [e2|];
      destruct (next_fault KUnsubscribe w);
      destruct ed;
      repeat match goal with
      | |- context [String.eqb (message ?e) ?s] => destruct (String.eqb (message e) s)
      end; cbn; lia.
  - intros Hnil. destruct (Hn Hnil) as [Hw Hall].
    assert (Hp1 : next_fault (push_kind ed)
                    (world (deliver (on_event process_env ed id) (hd [] (emissions w))
                              EmptyString (after_prompt w))) = None)
      by (unfold next_fault; now rewrite Hw).
    rewrite Hp1. cbn [settled]. split.
    + destruct (next_fault KPrompt w) as [err|];
        destruct (next_fault KUnsubscribe w);
        destruct ed;
        repeat match goal with
        | |- context [String.eqb (message ?e) ?s] => destruct (String.eqb (message e) s)
        end; reflexivity.
    + repeat (apply Forall_app; split); try exact Hall;
        destruct (next_fault KPrompt w) as [err|];
        destruct (next_fault KUnsubscribe w);
        destruct ed;
        repeat match goal with
        | |- context [String.eqb (message ?e) ?s] => destruct (String.eqb (message e) s)
        end; cbn; repeat constructor.
Qed.

(** X3.  On every exit path one task calls the prompt once and the
    unsubscription once; it never subscribes, never reads the queue and
    never calls abort, steer or newSession. *)
Theorem task_unsubscribes_exactly_once (ed : Edition) (id prompt : JsValue)
    (messageId : string) (w : World) :
  calls_of KPrompt (effects (run_task process_env ed id prompt messageId w))
    = [(session_prompt prompt, settled (next_fault KPrompt w))]
  /\ calls_of KUnsubscribe (effects (run_task process_env ed id prompt messageId w))
    = [(session_unsubscribe, settled (next_fault KUnsubscribe w))]
  /\ calls_of KSubscribe (effects (run_task process_env ed id prompt messageId w)) = []
  /\ calls_of KAbort (effects (run_task process_env ed id prompt messageId w)) = []
  /\ calls_of KSteer (effects (run_task process_env ed id prompt messageId w)) = []
  /\ calls_of KNewSession (effects (run_task process_env ed id prompt messageId w)) = []
  /\ reads (effects (run_task process_env ed id prompt messageId w)) = 0.
Proof.
  unfold reads.
  rewrite !run_task_calls by (destruct ed; discriminate). repeat split; reflexivity.
Qed.

(** X4.  One task leaves the slot empty exactly when its unsubscription
    returns: the assignment follows the call in the finally block, so an
    unsubscription that throws leaves [currentTaskId] as it was. *)
Theorem task_clears_slot (ed : Edition) (id prompt : JsValue) (messageId : string)
    (w : World) :
  currentTaskId (world (run_task process_env ed id prompt messageId w))
  = match next_fault KUnsubscribe w with
    | None => JUndefined
    | Some _ => currentTaskId w
    end.
Proof.
  destruct (run_task_run ed id prompt messageId w) as (_ & Hc & _). exact Hc.
Qed.

(** X5.  When the queue accepts the writes and the acknowledgment and the
    unsubscription returns, no failure of the agent leaves the task: the
    try / catch / finally completes normally whatever the prompt did. *)
Theorem task_survives_agent_failure (ed : Edition) (id prompt : JsValue)
    (messageId : string) (w : World) :
  faults w (push_kind ed) = [] ->
  next_fault KUnsubscribe w = None ->
  next_fault KXAck w = None ->
  outcome (run_task process_env ed id prompt messageId w) = Returned tt.
Proof.
  intros Hnil Hu Ha.
  destruct (run_task_run ed id prompt messageId w) as (_ & _ & Ho & _). cbv zeta in Ho.
  destruct (deliver_trace ed id (hd [] (emissions w)) EmptyString (after_prompt w))
    as (_ & _ & Hn).
  rewrite faults_after_prompt in Hn. destruct (Hn Hnil) as [Hw _].
  assert (Hp1 : next_fault (push_kind ed)
                  (world (deliver (on_event process_env ed id) (hd [] (emissions w))
                            EmptyString (after_prompt w))) = None)
    by (unfold next_fault; now rewrite Hw).
  rewrite Ho, Hu, Ha, Hp1.
  destruct ed, (next_fault KPrompt w); reflexivity.
Qed.
Ltac run_loop := unfold_iteration; repeat step_iteration.


(** X7.  A stream message whose payload is the JSON text null cannot be
    destructured: the TypeError ends in the outer catch, which logs it and
    waits 5000 ms.  Nothing is written or acknowledged and the slot keeps
    its value. *)
Theorem null_payload_is_a_loop_error (w : World) (stream messageId : string)
    (fields : list string) (messages : list (string * list string))
    (streams : list (string * list (string * list string)))
    (i : nat) (c : Ascii.ascii) (rest : string) :
  next_fault KXReadGroup w = None ->
  hd None (stream_reads w) = Some ((stream, (messageId, fields) :: messages) :: streams) ->
  nth_error fields (2 * i) = Some "payload" ->
  (forall j, j < i -> nth_error fields (2 * j) <> Some "payload") ->
  nth_error fields (2 * i + 1) = Some (String c rest) ->
  JSON_parse (String c rest) = inr JNull ->
  exists e : Exn,
    iteration JSON_parse process_env Stream w
    = (Returned tt,
       mkWorld (faults (consume KXReadGroup w)) (tl (stream_reads w)) (list_reads w)
               (emissions w) (currentTaskId w),
       [Call (read_command process_env Stream) true;
        Log (LReceived (Some messageId) (String c rest));
        LogError (LLoopError e);
        Sleep 5000])
    /\ name e = "TypeError".
Proof.
  intros Hx Hr Hk Hfirst Hv Hp. unfold next_fault in Hx.
  pose proof (find_payload_first i fields (String c rest) Hk Hfirst Hv) as Hfound.
  eexists. split.
  - run_loop. rewrite Hx. run_loop. rewrite Hr. run_loop. rewrite Hfound. run_loop.
    rewrite Hp. run_loop. reflexivity.
  - reflexivity.
Qed.

(** X8.  A read that resolves to null, to no stream, or to a stream with
    no message ends the iteration at once: the read is its only effect. *)
Theorem empty_read_does_nothing (w : World) :
  next_fault KXReadGroup w = None ->
  match hd None (stream_reads w) with
  | None | Some [] | Some ((_, []) :: _) => True
  | _ => False
  end ->
  iteration JSON_parse process_env Stream w
  = (Returned tt,
     mkWorld (faults (consume KXReadGroup w)) (tl (stream_reads w)) (list_reads w)
             (emissions w) (currentTaskId w),
     [Call (read_command process_env Stream) true]).
Proof.
  intros Hx Hr. unfold next_fault in Hx.
  run_loop. rewrite Hx. run_loop.
  destruct (hd None (stream_reads w)) as [[|[s [|m ms]] ss]|]; try contradiction;
    reflexivity.
Qed.

(** X9.  In every edition a rejected read ends in the outer catch: the
    failure is logged, the loop waits 5000 ms and returns, and nothing else
    happens. *)
Theorem read_failure_backs_off (ed : Edition) (w : World) (e : Exn) :
  next_fault (kind_of (read_command process_env ed)) w = Some e ->
  iteration JSON_parse process_env ed w
  = (Returned tt, consume (kind_of (read_command process_env ed)) w,
     [Call (read_command process_env ed) false; LogError (LLoopError e); Sleep 5000]).
Proof.
  intros Hx. unfold next_fault in Hx.
  destruct ed; cbn in Hx; run_loop; rewrite Hx; run_loop; reflexivity.
Qed.

(** X14.  When session.subscribe throws, the task is skipped: the prompt is
    never called, nothing is written or acknowledged, the failure is logged
    by the outer catch, and [currentTaskId] keeps the id of the task. *)
Theorem subscribe_failure_skips_the_task (w : World) (stream messageId : string)
    (fields : list string) (messages : list (string * list string))
    (streams : list (string * list (string * list string)))
    (i : nat) (c : Ascii.ascii) (rest : string) (payload id prompt : JsValue) (e : Exn) :
  next_fault KXReadGroup w = None ->
  hd None (stream_reads w) = Some ((stream, (messageId, fields) :: messages) :: streams) ->
  nth_error fields (2 * i) = Some "payload" ->
  (forall j, j < i -> nth_error fields (2 * j) <> Some "payload") ->
  nth_error fields (2 * i + 1) = Some (String c rest) ->
  JSON_parse (String c rest) = inr payload ->
  get payload "id" = inr id ->
  get payload "prompt" = inr prompt ->
  truthy prompt = true ->
  stringifiable (js_or id (JStr EmptyString)) = true ->
  stringifiable prompt = true ->
  next_fault KSubscribe w = Some e ->
  effects (iteration JSON_parse process_env Stream w)
  = [Call (read_command process_env Stream) true;
     Log (LReceived (Some messageId) (String c rest));
     Log (LProcessing (js_or id (JStr EmptyString)) prompt);
     Call session_subscribe false;
     LogError (LLoopError e);
     Sleep 5000]
  /\ currentTaskId (world (iteration JSON_parse process_env Stream w)) = id.
Proof.
  intros Hx Hr Hk Hfirst Hv Hp Hid Hprompt Ht Hs1 Hs2 Hs. unfold next_fault in Hx, Hs.
  pose proof (find_payload_first i fields (String c rest) Hk Hfirst Hv) as Hfound.
  unfold iteration, iteration_stream.
  generalize (run_task process_env Stream). intros task.
  run_loop. rewrite Hx. run_loop. rewrite Hr. run_loop. rewrite Hfound. run_loop.
  rewrite Hp. run_loop. rewrite Hid. run_loop. rewrite Hprompt. run_loop.
  rewrite Ht. run_loop. rewrite Hs1, Hs2. run_loop. rewrite Hs. run_loop.
  split; reflexivity.
Qed.

(** X13.  A task whose id or prompt does not convert to a string stops the
    iteration at the Processing line: a TypeError ends in the outer catch,
    the listener is never subscribed, the prompt never runs, nothing is
    written or acknowledged, and [currentTaskId] keeps the id of the
    task. *)
Theorem unprintable_task_leaves_slot_set (w : World) (stream messageId : string)
    (fields : list string) (messages : list (string * list string))
    (streams : list (string * list (string * list string)))
    (i : nat) (c : Ascii.ascii) (rest : string) (payload id prompt : JsValue) :
  next_fault KXReadGroup w = None ->
  hd None (stream_reads w) = Some ((stream, (messageId, fields) :: messages) :: streams) ->
  nth_error fields (2 * i) = Some "payload" ->
  (forall j, j < i -> nth_error fields (2 * j) <> Some "payload") ->
  nth_error fields (2 * i + 1) = Some (String c rest) ->
  JSON_parse (String c rest) = inr payload ->
  get payload "id" = inr id ->
  get payload "prompt" = inr prompt ->
  truthy prompt = true ->
  stringifiable (js_or id (JStr EmptyString)) && stringifiable prompt = false ->
  exists e : Exn,
    effects (iteration JSON_parse process_env Stream w)
    = [Call (read_command process_env Stream) true;
       Log (LReceived (Some messageId) (String c rest));
       LogError (LLoopError e);
       Sleep 5000]
    /\ name e = "TypeError"
    /\ currentTaskId (world (iteration JSON_parse process_env Stream w)) = id.
Proof.
  intros Hx Hr Hk Hfirst Hv Hp Hid Hprompt Ht Hs. unfold next_fault in Hx.
  pose proof (find_payload_first i fields (String c rest) Hk Hfirst Hv) as Hfound.
  assert (Hs' : stringifiable (js_or id (JStr EmptyString))
                && (stringifiable prompt && true) = false)
    by (rewrite andb_true_r; exact Hs).
  eexists. split; [|split].
  - run_loop. rewrite Hx. run_loop. rewrite Hr. run_loop. rewrite Hfound. run_loop.
    rewrite Hp. run_loop. rewrite Hid. run_loop. rewrite Hprompt. run_loop.
    rewrite Ht. run_loop. rewrite Hs'. run_loop. reflexivity.
  - reflexivity.
  - run_loop. rewrite Hx. run_loop. rewrite Hr. run_loop. rewrite Hfound. run_loop.
    rewrite Hp. run_loop. rewrite Hid. run_loop. rewrite Hprompt. run_loop.
    rewrite Ht. run_loop. rewrite Hs'. run_loop. reflexivity.
Qed.

Lemma run_task_acks (ed : Edition) (id prompt : JsValue) (messageId : string) (w : World) :
  acks (effects (run_task process_env ed id prompt messageId w))
  = match next_fault KUnsubscribe w, ed with
    | None, Stream => [messageId]
    | _, _ => []
    end.
Proof.
  destruct (run_task_run ed id prompt messageId w) as (He & _). cbv zeta in He.
  destruct (deliver_on_event process_env ed id (hd [] (emissions w)) EmptyString
              (after_prompt w)) as (w1 & t1 & Hd & _ & Ha & _).
  rewrite He, Hd. cbn [effects snd world fst].
  change (Call (session_prompt prompt) ?s :: ?l)%list
    with ([Call (session_prompt prompt) s] ++ l)%list.
  rewrite !acks_app, Ha.
  destruct (next_fault KPrompt w) as [err|];
    [ rewrite acks_failure
    | destruct (next_fault (push_kind ed) w1);
      [ change (acks (Log ?l :: Call (push_command ed ?k ?v) ?s :: ?t))
          with (acks (Call (push_command ed k v) s :: t)) | ] ];
    destruct (next_fault KUnsubscribe w), ed; try reflexivity.
  all: unfold failure_line; destruct (String.eqb (message _) "Aborted"); reflexivity.
Qed.

Lemma acks_cons (e : Effect) (t : list Effect) : acks (e :: t) = (acks [e] ++ acks t)%list.
Proof. exact (acks_app [e] t). Qed.

Ltac split_acks :=
  repeat match goal with
    | |- context [acks (?e :: ?t)] =>
        lazymatch t with
        | nil => fail
        | _ => rewrite (acks_cons e t)
        end
    end; rewrite ?acks_app.

(** X11.  One iteration of index.ts acknowledges nothing or exactly the
    id of the first message of the first stream of its read. *)
Theorem stream_acknowledges_only_what_it_read (w : World) :
  acks (effects (iteration JSON_parse process_env Stream w)) = []
  \/ exists stream messageId fields messages streams,
       hd None (stream_reads w) = Some ((stream, (messageId, fields) :: messages) :: streams)
       /\ acks (effects (iteration JSON_parse process_env Stream w)) = [messageId].
Proof.
  assert (Htask : forall id prompt mid w0,
             acks (effects (run_task process_env Stream id prompt mid w0)) = []
             \/ acks (effects (run_task process_env Stream id prompt mid w0)) = [mid]).
  { intros. rewrite run_task_acks. destruct (next_fault KUnsubscribe w0); auto. }
  unfold_iteration; revert Htask; generalize (run_task process_env Stream);
    intros task Htask; iteration_cases task Htask; split_acks;
    try (left; reflexivity);
    try (right; do 5 eexists; split; reflexivity);
    destruct Ht as [Ht | Ht]; rewrite Ht;
    try (left; reflexivity);
    right; do 5 eexists; split; reflexivity.
Qed.

Lemma iteration_reads (ed : Edition) (w : World) :
  reads (effects (iteration JSON_parse process_env ed w)) = 1.
Proof.
  assert (Htask : forall id prompt mid w0,
             reads (effects (run_task process_env ed id prompt mid w0)) = 0).
  { intros. unfold reads. rewrite !run_task_calls by (destruct ed; discriminate).
    reflexivity. }
  destruct ed; unfold_iteration; revert Htask;
    match goal with
    | |- context [run_task process_env ?ed] => generalize (run_task process_env ed)
    end; intros task Htask; iteration_cases task Htask;
    repeat match goal with
      | |- context [reads (?e :: ?t)] =>
          lazymatch t with
          | nil => fail
          | _ => rewrite (reads_cons e t)
          end
      end; rewrite ?reads_app, ?Ht; reflexivity.
Qed.

(** X10.  In every edition and every world each iteration issues exactly
    one blocking read, whatever happens to the task: [n] iterations of the
    loop read [n] times, so no failure stops the loop or makes it read
    twice. *)
Theorem loop_reads_once_per_iteration (ed : Edition) (n : nat) :
  forall w : World, reads (effects (main_loop JSON_parse process_env ed n w)) = n.
Proof.
  induction n as [|n IH]; intros w.
  - reflexivity.
  - rewrite main_loop_step, reads_app, iteration_reads, IH. reflexivity.
Qed.

Lemma list_iteration_acks (ed : Edition) (w : World) :
  ed <> Stream ->
  acks (effects (iteration JSON_parse process_env ed w)) = [].
Proof.
  intros Hed.
  assert (Htask : forall id prompt mid w0,
             acks (effects (run_task process_env ed id prompt mid w0)) = []).
  { intros. rewrite run_task_acks. destruct (next_fault KUnsubscribe w0), ed;
      try reflexivity; contradiction. }
  destruct ed; [contradiction | |]; unfold_iteration; revert Htask;
    match goal with
    | |- context [run_task process_env ?ed] => generalize (run_task process_env ed)
    end; intros task Htask; iteration_cases task Htask; split_acks; rewrite ?Ht;
    reflexivity.
Qed.

(** X12.  The list editions never acknowledge: no XACK is issued in any
    number of iterations. *)
Theorem list_editions_never_acknowledge (n : nat) :
  forall w : World,
    acks (effects (main_loop JSON_parse process_env ListLegacy n w)) = []
    /\ acks (effects (main_loop JSON_parse process_env ListReset n w)) = [].
Proof.
  induction n as [|n IH]; intros w.
  - split; reflexivity.
  - rewrite !main_loop_step, !acks_app.
    rewrite !list_iteration_acks by discriminate.
    destruct (IH (world (iteration JSON_parse process_env ListLegacy w))) as [H1 _].
    destruct (IH (world (iteration JSON_parse process_env ListReset w))) as [_ H2].
    rewrite H1, H2. split; reflexivity.
Qed.


(** X20.  A failure of the group creation whose message contains
    BUSYGROUP anywhere writes nothing; any other failure writes one error
    line with its message; success writes the creation line. *)
Theorem group_already_exists_is_benign (err : Exn) :
  ((exists pre post, message err = pre ++ "BUSYGROUP" ++ post) ->
   ensure_group process_env (Some err) = [])
  /\ ((~ exists pre post, message err = pre ++ "BUSYGROUP" ++ post) ->
      ensure_group process_env (Some err) = [StartupError (LGroupFailed (message err))])
  /\ ensure_group process_env None
     = [StartupLog (LGroupCreated "agent-group" "agent_in")].
Proof.
  unfold ensure_group. repeat split.
  - intros H. apply includes_spec in H. now rewrite H.
  - intros H. destruct (includes (message err) "BUSYGROUP") eqn:E; [|reflexivity].
    apply includes_spec in E. contradiction.
Qed.

Ltac run_signal :=
  unfold on_message, on_message_legacy, on_message_reset, route_signal, try_catch,
    prop, push, call, log_template, log, error, emit, get_currentTaskId;
  repeat step_iteration.


(** X17.  A signal that parses to a value other than null whose command
    is none of stop, steer and reset has no effect at all in any edition:
    no log line, no call. *)
Theorem unknown_signal_is_ignored (ed : Edition) (rawSignal : string)
    (signal command : JsValue) (w : World) :
  JSON_parse rawSignal = inr signal ->
  get signal "command" = inr command ->
  is_string command "stop" = false ->
  is_string command "steer" = false ->
  is_string command "reset" = false ->
  on_message JSON_parse process_env ed rawSignal w = (Returned tt, w, []).
Proof.
  intros Hp Hc H1 H2 H3.
  assert (Hm : exists m, get signal "message" = inr m).
  { destruct signal; try discriminate Hc; eexists; reflexivity. }
  destruct Hm as [m Hm].
  destruct ed; run_signal; rewrite Hp; run_signal; rewrite Hc; run_signal;
    rewrite H1; run_signal; rewrite Hm; run_signal; rewrite H2; run_signal;
    rewrite ?H3; reflexivity.
Qed.

(** X19.  The catch of the legacy handler knows only the literal STOP:
    for that text it logs and calls abort, and an exception of that call
    leaves the handler; every other text that is not JSON is dropped with
    no log line and no call. *)
Theorem legacy_catch_only_knows_STOP (rawSignal : string) (e : Exn) (w : World) :
  JSON_parse rawSignal = inl e ->
  (rawSignal = "STOP" ->
   on_message JSON_parse process_env ListLegacy rawSignal w
   = (match next_fault KAbort w with
      | None => Returned tt
      | Some e' => Thrown e'
      end,
      consume KAbort w,
      [Log LPlainStop; Call agent_abort (settled (next_fault KAbort w))]))
  /\ (rawSignal <> "STOP" ->
      on_message JSON_parse process_env ListLegacy rawSignal w = (Returned tt, w, [])).
Proof.
  intros Hp. split; intros H.
  - subst. run_signal. rewrite Hp. run_signal.
    destruct (hd None (faults w KAbort)); reflexivity.
  - apply String.eqb_neq in H. run_signal. rewrite Hp. run_signal. rewrite H. reflexivity.
Qed.

(** X18.  In every edition the handler of control signals never writes
    [currentTaskId], never acknowledges a message, never calls the prompt
    and never reads the task queue. *)
Theorem handler_leaves_the_slot_alone (ed : Edition) (rawSignal : string) (w : World) :
  currentTaskId (world (on_message JSON_parse process_env ed rawSignal w)) = currentTaskId w
  /\ acks (effects (on_message JSON_parse process_env ed rawSignal w)) = []
  /\ calls_of KPrompt (effects (on_message JSON_parse process_env ed rawSignal w)) = []
  /\ reads (effects (on_message JSON_parse process_env ed rawSignal w)) = 0.
Proof.
  destruct ed; run_signal;
    repeat first
      [ step_iteration
      | match goal with
        | |- context [match ?x with _ => _ end] =>
            lazymatch x with
            | context [match _ with _ => _ end] => fail
            | _ => destruct x eqn:?
            end
        end ];
    repeat split; reflexivity.
Qed.
End Coverage.

(** X5 at an aborted prompt. *)
Lemma task_survives_witness :
  faults aborted_world (push_kind Stream) = []
  /\ next_fault KUnsubscribe aborted_world = None
  /\ next_fault KXAck aborted_world = None
  /\ outcome (run_task no_env Stream (JStr "t1") (JStr "hello") "1-0" aborted_world)
     = Returned tt.
Proof.
  repeat (split; [reflexivity|]).
  exact (task_survives_agent_failure no_env Stream (JStr "t1") (JStr "hello") "1-0"
           aborted_world eq_refl eq_refl eq_refl).
Defined.

(** ** The further theorems at concrete inputs *)


(** X7 at the payload null. *)
Lemma null_payload_witness :
  JSON_parse_sample "null" = inr JNull
  /\ exists e : Exn,
       iteration JSON_parse_sample no_env Stream
         (mkWorld no_faults [one_message "null"] [] [] (JStr "t0"))
       = (Returned tt,
          mkWorld (faults (consume KXReadGroup
                             (mkWorld no_faults [one_message "null"] [] [] (JStr "t0"))))
                  [] [] [] (JStr "t0"),
          [Call (read_command no_env Stream) true;
           Log (LReceived (Some "1-0") "null");
           LogError (LLoopError e);
           Sleep 5000])
       /\ name e = "TypeError".
Proof.
  split; [reflexivity|].
  exact (null_payload_is_a_loop_error JSON_parse_sample no_env
           (mkWorld no_faults [one_message "null"] [] [] (JStr "t0"))
           "agent_in" "1-0" ["payload"; "null"] [] [] 0 "n"%char "ull"
           eq_refl eq_refl eq_refl (fun j Hj => match Nat.nlt_0_r j Hj with end) eq_refl eq_refl).
Defined.

(** X8 at a read that resolves to null. *)
Lemma empty_read_witness :
  effects (iteration JSON_parse_sample no_env Stream (quiet JUndefined))
  = [Call (read_command no_env Stream) true].
Proof.
  exact (f_equal (fun x => effects x)
           (empty_read_does_nothing JSON_parse_sample no_env (quiet JUndefined) eq_refl I)).
Defined.

(** X9 at a connection reset. *)
Lemma read_failure_witness :
  next_fault (kind_of (read_command no_env Stream)) broken_read_world
  = Some (mkExn "Error" "read ECONNRESET")
  /\ effects (iteration JSON_parse_sample no_env Stream broken_read_world)
     = [Call (read_command no_env Stream) false;
        LogError (LLoopError (mkExn "Error" "read ECONNRESET"));
        Sleep 5000].
Proof.
  split; [reflexivity|].
  exact (f_equal (fun x => effects x)
           (read_failure_backs_off JSON_parse_sample no_env Stream broken_read_world
              (mkExn "Error" "read ECONNRESET") eq_refl)).
Defined.

(** X14 at task t1. *)
Lemma subscribe_failure_witness :
  next_fault KSubscribe broken_subscribe_world = Some (mkExn "Error" "session closed")
  /\ effects (iteration JSON_parse_sample no_env Stream broken_subscribe_world)
     = [Call (read_command no_env Stream) true;
        Log (LReceived (Some "1-0") task_text);
        Log (LProcessing (JStr "t1") (JStr "hello"));
        Call session_subscribe false;
        LogError (LLoopError (mkExn "Error" "session closed"));
        Sleep 5000]
  /\ currentTaskId (world (iteration JSON_parse_sample no_env Stream broken_subscribe_world))
     = JStr "t1".
Proof.
  split; [reflexivity|].
  exact (subscribe_failure_skips_the_task JSON_parse_sample no_env broken_subscribe_world
           "agent_in" "1-0" ["payload"; task_text] [] [] 0 "{"%char
           (json_members [("id", "t1"); ("prompt", "hello")] ++ "}")
           (string_object [("id", "t1"); ("prompt", "hello")]) (JStr "t1") (JStr "hello")
           (mkExn "Error" "session closed")
           eq_refl eq_refl eq_refl (fun j Hj => match Nat.nlt_0_r j Hj with end) eq_refl eq_refl eq_refl eq_refl eq_refl
           eq_refl eq_refl eq_refl).
Defined.

(** X13 at a task whose id is an object with an own toString. *)
Lemma unprintable_task_witness :
  JSON_parse_more unprintable_task_text
  = inr (JObj [("id", JObj [("toString", JNum 1%float)]); ("prompt", JStr "hi")])
  /\ stringifiable (JObj [("toString", JNum 1%float)]) = false
  /\ exists e : Exn,
       effects (iteration JSON_parse_more no_env Stream
                  (mkWorld no_faults [one_message unprintable_task_text] [] [] JUndefined))
       = [Call (read_command no_env Stream) true;
          Log (LReceived (Some "1-0") unprintable_task_text);
          LogError (LLoopError e);
          Sleep 5000]
       /\ name e = "TypeError"
       /\ currentTaskId
            (world (iteration JSON_parse_more no_env Stream
                      (mkWorld no_faults [one_message unprintable_task_text] [] []
                               JUndefined)))
          = JObj [("toString", JNum 1%float)].
Proof.
  split; [reflexivity|]. split; [reflexivity|].
  exact (unprintable_task_leaves_slot_set JSON_parse_more no_env
           (mkWorld no_faults [one_message unprintable_task_text] [] [] JUndefined)
           "agent_in" "1-0" ["payload"; unprintable_task_text] [] [] 0 "{"%char
           (dq ++ "id" ++ dq ++ ":{" ++ dq ++ "toString" ++ dq ++ ":1},"
               ++ dq ++ "prompt" ++ dq ++ ":" ++ dq ++ "hi" ++ dq ++ "}")
           (JObj [("id", JObj [("toString", JNum 1%float)]); ("prompt", JStr "hi")])
           (JObj [("toString", JNum 1%float)]) (JStr "hi")
           eq_refl eq_refl eq_refl (fun j Hj => match Nat.nlt_0_r j Hj with end) eq_refl eq_refl eq_refl eq_refl eq_refl eq_refl).
Defined.


(** X17 at the command pause, while task t1 is running. *)
Lemma unknown_signal_witness :
  JSON_parse_more pause_text = inr (string_object [("command", "pause")])
  /\ on_message JSON_parse_more no_env Stream pause_text (quiet (JStr "t1"))
     = (Returned tt, quiet (JStr "t1"), []).
Proof.
  split; [reflexivity|].
  exact (unknown_signal_is_ignored JSON_parse_more no_env Stream pause_text
           (string_object [("command", "pause")]) (JStr "pause") (quiet (JStr "t1"))
           eq_refl eq_refl eq_refl eq_refl eq_refl).
Defined.

(** X19 at the literal STOP and at another text that is not JSON. *)
Lemma legacy_catch_witness :
  effects (on_message JSON_parse_sample no_env ListLegacy "STOP" (quiet (JStr "t1")))
  = [Log LPlainStop; Call agent_abort true]
  /\ on_message JSON_parse_sample no_env ListLegacy "not-json" (quiet (JStr "t1"))
     = (Returned tt, quiet (JStr "t1"), []).
Proof.
  split.
  - exact (f_equal (fun x => effects x)
             (proj1 (legacy_catch_only_knows_STOP JSON_parse_sample no_env "STOP"
                       (mkExn "SyntaxError" "Unexpected token") (quiet (JStr "t1")) eq_refl)
                    eq_refl)).
  - apply (proj2 (legacy_catch_only_knows_STOP JSON_parse_sample no_env "not-json"
                    (mkExn "SyntaxError" "Unexpected token") (quiet (JStr "t1")) eq_refl)).
    discriminate.
Defined.

(** X21 at a time stamp. *)
Lemma timestamp_witness :
  timestamp "2026-11-03T06:25:00.000Z" = "2026-11-03 06:25:00.000"
  /\ log_text "2026-11-03T06:25:00.000Z" "Listening for messages on queue: agent_in"
     = "[2026-11-03 06:25:00.000] Listening for messages on queue: agent_in".
Proof.
  exact (timestamp_of_iso "2026-11-03" "06:25:00.000"
           "Listening for messages on queue: agent_in" eq_refl eq_refl eq_refl).
Defined.
